(** * ivoox-scraping: the podcast fetcher [rss-download.py]

    A shallow embedding of the script and the properties its specification
    states about it.

    Conventions of the model.
    - A Python [str] is the sequence of its code points.  Identifier
      extraction is embedded on all of them: [Unicode.extract_id] works on
      a list of code points, and the class [\d] of the [re] module, the
      decimal digits of the Unicode database, is its parameter.  The
      pipeline is run on the strings whose code points are below 256, which
      are the Rocq [string]s: there [\d] is exactly ['0'..'9'],
      [str.lower] is the map [lower_char] below, and [extract_id] is the
      extraction on code points ([extract_id_latin1]).
    - A [dict] is a [gmap]; a Python list is a [list].
    - The network and the parsers of XML and YAML are parameters of the
      section [Pipeline]; an exception of theirs is a [None].
    - The file system is a state that the effectful functions thread
      through: a tree of directories and regular files, seen from the
      working directory, which is taken to be its root.  It refuses an
      operation only for what the tree holds (no permissions, no limits).
    - A raised exception is the left outcome of a computation of the
      monad [M]; the world it leaves behind is the other component. *)

From Stdlib Require Import ZArith NArith Lia Ascii String List Bool.
From stdpp Require Import base gmap strings list.

Set Warnings "-register-all".

Open Scope string_scope.
Open Scope list_scope.

#[local] Arguments String.append !_ _ / : simpl nomatch.

(** ** Python's string methods, as far as the script uses them *)

Module Py.

(** [c] as a code point. *)
Definition ord (c : ascii) : nat := nat_of_ascii c.
Definition code (c : ascii) : N := N_of_ascii c.

(** A string as the list of its code points, and back (for code points
    below 256). *)
Definition code_points (s : string) : list N :=
  List.map code (list_ascii_of_string s).
Definition of_code_points (l : list N) : string :=
  string_of_list_ascii (List.map ascii_of_N l).

(** The decimal digits among the code points below 256: ['0'..'9']. *)
Definition is_digit (c : N) : bool := (48 <=? c)%N && (c <=? 57)%N.

(** [str.lower] on one character: [A-Z], and the upper-case letters of the
    Latin-1 supplement (U+00C0..U+00DE without the sign U+00D7). *)
Definition lower_char (c : ascii) : ascii :=
  let n := ord c in
  if ((65 <=? n)%nat && (n <=? 90)%nat)
     || ((192 <=? n)%nat && (n <=? 222)%nat && negb (n =? 215)%nat)
  then ascii_of_nat (n + 32) else c.

(** [s.lower()] *)
Fixpoint lower (s : string) : string :=
  match s with
  | EmptyString => EmptyString
  | String c s' => String (lower_char c) (lower s')
  end.

(** [s.startswith(p)] *)
Definition startswith (s p : string) : bool := String.prefix p s.

(** [s.endswith(p)] *)
Fixpoint endswith (s p : string) : bool :=
  String.eqb s p ||
  match s with
  | EmptyString => false
  | String _ s' => endswith s' p
  end.

(** [s.find(sub)]: the lowest index where [sub] starts, [-1] when there is
    none. *)
Fixpoint find (s sub : string) : Z :=
  if startswith s sub then 0%Z
  else match s with
       | EmptyString => (-1)%Z
       | String _ s' =>
           let i := find s' sub in
           if (i =? -1)%Z then (-1)%Z else (i + 1)%Z
       end.

(** [s[:stop]]: a negative [stop] counts from the end, and the bound is
    clipped to the string. *)
Definition slice_to (s : string) (stop : Z) : string :=
  let len := Z.of_nat (String.length s) in
  let stop' := if (stop <? 0)%Z then Z.max 0 (stop + len) else stop in
  substring 0 (Z.to_nat stop') s.

(** [s.split(sep)] for a one-character separator: never an empty list. *)
Fixpoint split (s : string) (sep : ascii) : list string :=
  match s with
  | EmptyString => [EmptyString]
  | String c s' =>
      if Ascii.eqb c sep then EmptyString :: split s' sep
      else match split s' sep with
           | w :: ws => String c w :: ws
           | [] => [String c EmptyString]
           end
  end.

(** Truth value of an optional string: [None] and [""] are false. *)
Definition truthy (o : option string) : bool :=
  match o with
  | Some (String _ _) => true
  | _ => false
  end.

End Py.

(** ** A backtracking matcher for the fragment of [re] the script uses *)

Module Re.

Inductive atom :=
| Chr (c : N)       (* a literal character, by its code point *)
| Digit.            (* \d *)

Inductive node :=
| One (a : atom)    (* a *)
| Many1 (a : atom)  (* a+, greedy *)
| Open              (* the opening parenthesis of group 1 *)
| Close.            (* the closing parenthesis of group 1 *)

Definition pattern := list node.

(** What the matcher carries along: the position in the subject and the
    marks of group 1. *)
Record mstate := MState { pos : nat; g_start : option nat; g_end : option nat }.

Definition advance (st : mstate) : mstate :=
  MState (S (pos st)) (g_start st) (g_end st).
Definition mark_start (st : mstate) : mstate :=
  MState (pos st) (Some (pos st)) (g_end st).
Definition mark_end (st : mstate) : mstate :=
  MState (pos st) (g_start st) (Some (pos st)).

Section Matcher.

(** The class [\d]: for a [str] pattern the decimal digits of the
    interpreter's Unicode database. *)
Variable is_decimal : N -> bool.

Definition atom_ok (a : atom) (c : N) : bool :=
  match a with
  | Chr c' => N.eqb c c'
  | Digit => is_decimal c
  end.

(** Zero or more [a], longest first; [k] matches the rest of the pattern
    and is retried with one repetition less each time it fails. *)
Fixpoint greedy (a : atom) (k : list N -> mstate -> option mstate)
    (s : list N) (st : mstate) : option mstate :=
  match s with
  | c :: s' =>
      if atom_ok a c then
        match greedy a k s' (advance st) with
        | Some r => Some r
        | None => k s st
        end
      else k s st
  | [] => k s st
  end.

(** Match [p] at the head of [s]. *)
Fixpoint match_here (p : pattern) : list N -> mstate -> option mstate :=
  match p with
  | [] => fun _ st => Some st
  | One a :: p' => fun s st =>
      match s with
      | c :: s' => if atom_ok a c then match_here p' s' (advance st) else None
      | [] => None
      end
  | Many1 a :: p' => fun s st =>
      match s with
      | c :: s' =>
          if atom_ok a c then greedy a (match_here p') s' (advance st) else None
      | [] => None
      end
  | Open :: p' => fun s st => match_here p' s (mark_start st)
  | Close :: p' => fun s st => match_here p' s (mark_end st)
  end.

(** Try every start position of [s] from the left; [i] is the index of the
    head of [s] in the subject. *)
Fixpoint search_from (p : pattern) (s : list N) (i : nat) : option mstate :=
  match match_here p s (MState i None None) with
  | Some st => Some st
  | None =>
      match s with
      | _ :: s' => search_from p s' (S i)
      | [] => None
      end
  end.

End Matcher.

(** A match object: the subject and the marks of group 1. *)
Record Match := MkMatch { subject : list N; marks : mstate }.

(** [re.search(p, s)] *)
Definition search (is_decimal : N -> bool) (p : pattern) (s : list N)
    : option Match :=
  match search_from is_decimal p s 0 with
  | Some st => Some (MkMatch s st)
  | None => None
  end.

(** [m.group(1)]: [None] when the group took no part in the match. *)
Definition group1 (m : Match) : option (list N) :=
  match g_start (marks m), g_end (marks m) with
  | Some b, Some e => Some (take (e - b) (drop b (subject m)))
  | _, _ => None
  end.

End Re.

(** ** Identifier extraction and the feed URL *)

(** The pattern [r"sq_(f\d+)_"]. *)
Definition ID_PATTERN : Re.pattern :=
  [Re.One (Re.Chr (Py.code "s")); Re.One (Re.Chr (Py.code "q"));
   Re.One (Re.Chr (Py.code "_"));
   Re.Open; Re.One (Re.Chr (Py.code "f")); Re.Many1 Re.Digit; Re.Close;
   Re.One (Re.Chr (Py.code "_"))].

Module Unicode.

(** [extract_id] on a [str] of any code points. *)
Definition extract_id (is_decimal : N -> bool) (url : list N)
    : option (list N) :=
  match Re.search is_decimal ID_PATTERN url with
  | Some m => Re.group1 m
  | None => None
  end.

End Unicode.

(** [extract_id] on the strings of the pipeline, whose code points are
    below 256: there the digits are ['0'..'9']. *)
Definition extract_id (url : string) : option string :=
  option_map Py.of_code_points
    (Unicode.extract_id Py.is_digit (Py.code_points url)).

Definition build_feed_url (ivoox_id : string) : string :=
  "https://feeds.ivoox.com/feed_fg_" +:+ ivoox_id +:+ "_filtro_1.xml".

(** ** The environment: exceptions, the file system, the standard output *)

Inductive exn :=
| FileNotFoundError (msg : string)
| FileExistsError
| NotADirectoryError
| IsADirectoryError
| ValueError (msg : string)
| TypeError
| AttributeError
| NameError (name : string)
| RequestException    (* whatever [requests.get] itself raises *)
| HTTPError (status : Z)
| ParseError          (* whatever [ET.fromstring] raises *)
| YAMLError.          (* whatever [yaml.safe_load] raises *)

(** A parsed YAML document. *)
Inductive yaml_value :=
| YNull
| YBool (b : bool)
| YInt (z : Z)
| YStr (s : string)
| YList (l : list yaml_value)
| YMap (m : gmap string yaml_value).

(** What [print] can be handed in this script. *)
Inductive pyobj :=
| OStr (s : string)
| ONone
| OPath (p : string)
| OList (l : list yaml_value).

Definition of_optstr (o : option string) : pyobj :=
  match o with Some s => OStr s | None => ONone end.

Module FS.

(** A path is its list of names, innermost first, so that the parent of
    [x :: p] is [p].  The tree is seen from the working directory, which is
    its root [[]]: a leading slash leads there too. *)
Definition path := list string.

Inductive fnode :=
| Dir
| File (content : string).

(** Names of a path string: empty names and ["."] do not count (the
    check that what stands before such a name is a directory is left
    out). *)
Definition is_name (w : string) : bool :=
  negb (String.eqb w "") && negb (String.eqb w ".").

Definition resolve (p : string) : path :=
  rev (List.filter is_name (Py.split p "/")).

(** [str(Path(p))]: the spelling [pathlib] gives a path.  Empty names and
    ["."] go, ["."] stands for the path without names, and of the leading
    slashes one is kept, or two when there are exactly two. *)
Definition Path (p : string) : string :=
  let names := List.filter is_name (Py.split p "/") in
  let root :=
    if Py.startswith p "//" && negb (Py.startswith p "///") then "//"
    else if Py.startswith p "/" then "/" else "" in
  match names with
  | [] => if String.eqb root "" then "." else root
  | _ => root +:+ String.concat "/" names
  end.

(** What the tree holds at the place [c]; the root is a directory. *)
Definition entry (fs : gmap path fnode) (c : path) : option fnode :=
  match c with
  | [] => Some Dir
  | _ => fs !! c
  end.

(** Where the name [x] leads from the directory at [d]: [..] leads to its
    parent, and the root is its own parent. *)
Definition step (d : path) (x : string) : path :=
  if String.eqb x ".." then tail d else x :: d.

Definition ENOENT : exn := FileNotFoundError "No such file or directory".

(** The place the names [p] lead to.  Every name is looked up in the
    directory the names before it lead to, which has to be there. *)
Fixpoint locate (fs : gmap path fnode) (p : path) : exn + path :=
  match p with
  | [] => inr []
  | x :: above =>
      match locate fs above with
      | inl e => inl e
      | inr d =>
          match entry fs d with
          | Some Dir => inr (step d x)
          | Some (File _) => inl NotADirectoryError
          | None => inl ENOENT
          end
      end
  end.

(** The node the names [p] lead to, when there is one. *)
Definition node_at (fs : gmap path fnode) (p : path) : option fnode :=
  match locate fs p with
  | inr c => entry fs c
  | inl _ => None
  end.

Definition exists_ (fs : gmap path fnode) (p : path) : bool :=
  match node_at fs p with Some _ => true | None => false end.

Definition isdir (fs : gmap path fnode) (p : path) : bool :=
  match node_at fs p with Some Dir => true | _ => false end.

(** [os.mkdir] *)
Definition mkdir (p : path) (fs : gmap path fnode) : exn + gmap path fnode :=
  match locate fs p with
  | inl e => inl e
  | inr c =>
      match entry fs c with
      | Some _ => inl FileExistsError
      | None => inr (<[c := Dir]> fs)
      end
  end.

(** [except FileExistsError: pass] *)
Definition pass_exists (r : (exn + unit) * gmap path fnode)
    : (exn + unit) * gmap path fnode :=
  match r with
  | (inl FileExistsError, fs) => (inr tt, fs)
  | _ => r
  end.

(** [os.makedirs(name, exist_ok=...)] on the names of a path: the missing
    ancestors first (a [FileExistsError] of that step is passed over),
    then the leaf, whose failure is forgiven when [exist_ok] is set and
    the leaf is a directory.  What was made stays when the call raises:
    the result comes with the file system the call leaves. *)
Fixpoint makedirs (p : path) (exist_ok : bool) (fs : gmap path fnode)
    : (exn + unit) * gmap path fnode :=
  match p with
  | [] => (if exist_ok then inr tt else inl FileExistsError, fs)
  | _ :: head =>
      let (above, fs1) :=
        if negb (exists_ fs head)
        then pass_exists (makedirs head exist_ok fs)
        else (inr tt, fs) in
      match above with
      | inl e => (inl e, fs1)
      | inr _ =>
          match mkdir p fs1 with
          | inr fs2 => (inr tt, fs2)
          | inl e => (if exist_ok && isdir fs1 p then inr tt else inl e, fs1)
          end
      end
  end.

(** [open(p, "wb")] followed by the writes and the close: the file is
    created or truncated and ends up holding [content]. *)
Definition write_file (p : path) (content : string) (fs : gmap path fnode)
    : exn + gmap path fnode :=
  match locate fs p with
  | inl e => inl e
  | inr c =>
      match entry fs c with
      | Some Dir => inl IsADirectoryError
      | _ => inr (<[c := File content]> fs)
      end
  end.

(** [open(p, "r").read()] *)
Definition read_file (p : path) (fs : gmap path fnode) : exn + string :=
  match node_at fs p with
  | Some (File c) => inr c
  | Some Dir => inl IsADirectoryError
  | None => inl ENOENT
  end.

(** [os.path.join(a, b)] *)
Definition join (a b : string) : string :=
  if Py.startswith b "/" then b
  else if String.eqb a "" || Py.endswith a "/" then a +:+ b
  else a +:+ "/" +:+ b.

(** Where the names [p] lead when every directory on the way is there. *)
Fixpoint place (p : path) : path :=
  match p with
  | [] => []
  | x :: above => step (place above) x
  end.

End FS.

(** The state of a run: the file system and what was printed so far (one
    entry for each call of [print], oldest first). *)
Record world := World { files : gmap FS.path FS.fnode; stdout : list (list pyobj) }.

(** Computations that read and change the world and may raise. *)
Definition M (A : Type) : Type := world -> (exn + A) * world.

Definition ret {A} (a : A) : M A := fun w => (inr a, w).
Definition raise {A} (e : exn) : M A := fun w => (inl e, w).
Definition bind {A B} (m : M A) (k : A -> M B) : M B :=
  fun w => match m w with
           | (inr a, w') => k a w'
           | (inl e, w') => (inl e, w')
           end.

Notation "x <- m ;; k" := (bind m (fun x => k))
  (at level 100, m at next level, right associativity).
Notation "m ;;; k" := (bind m (fun _ => k))
  (at level 100, right associativity).

(** A step that cannot touch the world. *)
Definition lift {A} (r : exn + A) : M A :=
  match r with inl e => raise e | inr a => ret a end.

(** A step on the file system that changes nothing when it raises. *)
Definition on_files (f : gmap FS.path FS.fnode -> exn + gmap FS.path FS.fnode)
    : M unit :=
  fun w => match f (files w) with
           | inr fs' => (inr tt, World fs' (stdout w))
           | inl e => (inl e, w)
           end.

(** A step on the file system that leaves its changes when it raises. *)
Definition on_files_so_far
    (f : gmap FS.path FS.fnode -> (exn + unit) * gmap FS.path FS.fnode)
    : M unit :=
  fun w => let (r, fs') := f (files w) in (r, World fs' (stdout w)).

Definition print (args : list pyobj) : M unit :=
  fun w => (inr tt, World (files w) (stdout w ++ [args])).

(** ** The feed: XML elements and HTTP responses *)

Inductive Element :=
| Elem (tag : string) (attrib : gmap string string) (children : list Element).

Definition tag_of (e : Element) : string := let (t, _, _) := e in t.
Definition attrib_of (e : Element) : gmap string string := let (_, a, _) := e in a.
Definition children_of (e : Element) : list Element := let (_, _, c) := e in c.

(** [e.find(name)] for a plain tag name: the first child with that tag. *)
Definition find (e : Element) (name : string) : option Element :=
  List.find (fun c => String.eqb (tag_of c) name) (children_of e).

(** [e.get(key)] *)
Definition get (e : Element) (key : string) : option string :=
  attrib_of e !! key.

(** A response: its status and its body as the chunks it arrives in. *)
Record Response := { status_code : Z; chunks : list string }.

(** [resp.content] *)
Definition content (r : Response) : string :=
  fold_right String.append "" (chunks r).

(** [resp.raise_for_status()] *)
Definition raise_for_status (r : Response) : exn + unit :=
  if (400 <=? status_code r)%Z && (status_code r <? 600)%Z
  then inl (HTTPError (status_code r)) else inr tt.

(** [os.makedirs(name, exist_ok=...)]: the empty name is no path at all. *)
Definition os_makedirs_run (name : string) (exist_ok : bool)
    (fs : gmap FS.path FS.fnode) : (exn + unit) * gmap FS.path FS.fnode :=
  if String.eqb name "" then (inl FS.ENOENT, fs)
  else FS.makedirs (FS.resolve name) exist_ok fs.

(** Its outcome: the file system it leaves when it returns, the exception
    when it raises. *)
Definition os_makedirs (name : string) (exist_ok : bool)
    (fs : gmap FS.path FS.fnode) : exn + gmap FS.path FS.fnode :=
  match os_makedirs_run name exist_ok fs with
  | (inr _, fs') => inr fs'
  | (inl e, _) => inl e
  end.


(** ** The configuration *)

Record PodcastConfig := {
  downloaded_podcast_audio : string;    (* a [Path], by its spelling *)
  podcast_url : list yaml_value
}.

(** [sub in s] *)
Definition contains (s sub : string) : bool :=
  negb (Py.find s sub =? -1)%Z.

(** [ConfigLoader._validate] *)
Definition _validate (data : gmap string yaml_value) : exn + unit :=
  match data !! "downloaded_podcast_audio" with
  | None => inl (ValueError "Missing required field: downloaded_podcast_audio")
  | Some _ =>
      match data !! "podcast_url" with
      | None => inl (ValueError "Missing required field: podcast_url")
      | Some (YList _) => inr tt
      | Some _ => inl (ValueError "podcast_url must be an array of strings")
      end
  end.

(** [key in data] for a document that is no mapping: a substring of a
    string, an item of a list; a scalar is not iterable. *)
Definition member (key : string) (data : yaml_value) : exn + bool :=
  match data with
  | YStr s => inr (contains s key)
  | YList l =>
      inr (existsb (fun v => match v with
                             | YStr s => String.eqb s key
                             | _ => false
                             end) l)
  | YMap m => inr (match m !! key with Some _ => true | None => false end)
  | _ => inl TypeError
  end.

(** What [_validate] raises on a document that is no mapping, which
    [load] does not rule out.  The two tests of membership go through on
    a string and on a list, and [data["podcast_url"]] raises after
    them. *)
Definition _validate_other (data : yaml_value) : exn :=
  match member "downloaded_podcast_audio" data with
  | inl e => e
  | inr false => ValueError "Missing required field: downloaded_podcast_audio"
  | inr true =>
      match member "podcast_url" data with
      | inl e => e
      | inr false => ValueError "Missing required field: podcast_url"
      | inr true => TypeError
      end
  end.

(** ** The pipeline *)

Section Pipeline.

(** [requests.get]: [None] when the call itself raises. *)
Variable http_get : string -> option Response.
(** [ET.fromstring]: [None] when the parser raises. *)
Variable fromstring : string -> option Element.
(** [yaml.safe_load]: the document, which need not be a mapping; [None]
    when it raises. *)
Variable safe_load : string -> option yaml_value.

Definition requests_get (url : string) : exn + Response :=
  match http_get url with
  | Some r => inr r
  | None => inl RequestException
  end.

Definition get_first_mp3_enclosure (feed_url : string) : M (option string) :=
  resp <- lift (requests_get feed_url) ;;
  lift (raise_for_status resp) ;;;
  let xml_data := content resp in
  root <- lift (match fromstring xml_data with
                | Some r => inr r
                | None => inl ParseError
                end) ;;
  match find root "channel" with
  | None => ret None
  | Some channel =>
      match find channel "item" with
      | None => ret None
      | Some item =>
          match find item "enclosure" with
          | None => ret None
          | Some enclosure =>
              let url := get enclosure "url" in
              if Py.truthy url
                 && match url with
                    | Some u => Py.endswith (Py.lower u) ".mp3"
                    | None => false
                    end
              then ret url
              else ret url
          end
      end
  end.

(** The file name [download_mp3] saves under (the lines between the
    directory creation and [os.path.join]); [split] never returns an
    empty list, so [[-1]] always has an item to take. *)
Definition derive_filename (mp3_url : string) : string :=
  let filename := List.last (Py.split mp3_url "/") "" in
  if negb (Py.endswith (Py.lower filename) ".mp3") then
    let idx := Py.find (Py.lower filename) ".mp3" in
    if negb (idx =? -1)%Z then Py.slice_to filename (idx + 4) else filename
  else filename.

(** The body of a response as [iter_content] hands it to [f.write]:
    empty chunks are skipped. *)
Definition streamed (r : Response) : string :=
  fold_right String.append ""
    (List.filter (fun chunk => negb (String.eqb chunk "")) (chunks r)).

(** What [download_mp3] does after the directory step, lines 62 to 79.
    [mp3_url] is [None] when the caller passes the absent enclosure on:
    then [mp3_url.split] raises. *)
Definition save_mp3 (mp3_url : option string) (dest_folder : string)
    : M string :=
  url <- lift (match mp3_url with
               | Some u => inr u
               | None => inl AttributeError
               end) ;;
  let filename := derive_filename url in
  let dest_path := FS.join dest_folder filename in
  r <- lift (requests_get url) ;;
  lift (raise_for_status r) ;;;
  on_files (FS.write_file (FS.resolve dest_path) (streamed r)) ;;;
  ret dest_path.

Definition download_mp3 (mp3_url : option string) (dest_folder : string)
    : M string :=
  on_files_so_far (os_makedirs_run dest_folder true) ;;;
  save_mp3 mp3_url dest_folder.

(** [ConfigLoader(config_path).load()]; the constructor keeps the path as
    a [Path]. *)
Definition load (config_path : string) : M PodcastConfig :=
  let config_path := FS.Path config_path in
  fun w =>
    if negb (FS.exists_ (files w) (FS.resolve config_path))
    then raise (FileNotFoundError ("Config file not found: " +:+ config_path)) w
    else
      (text <- lift (FS.read_file (FS.resolve config_path) (files w)) ;;
       document <- lift (match safe_load text with
                         | Some d => inr d
                         | None => inl YAMLError
                         end) ;;
       match document with
       | YMap data =>
           lift (_validate data) ;;;
           match data !! "downloaded_podcast_audio", data !! "podcast_url" with
           | Some (YStr p), Some (YList l) =>
               ret {| downloaded_podcast_audio := FS.Path p; podcast_url := l |}
           | _, _ => raise TypeError
           end
       | _ => raise (_validate_other document)
       end) w.

(** The last four statements of the loop body: fetch the feed, report
    the enclosure, download it, report the saved file. *)
Definition fetch_and_save (feed_url : string) : M unit :=
  mp3_url <- get_first_mp3_enclosure feed_url ;;
  print [OStr "First MP3 URL:"; of_optstr mp3_url] ;;;
  saved_file <- download_mp3 mp3_url "downloaded_podcast_audio" ;;
  print [OStr "Saved:"; OStr saved_file].

(** The [for] loop of the entry point.  [feed_url] is the binding of the
    module-level variable of that name when an iteration starts: [None]
    while nothing was assigned to it, and reading it then raises. *)
Fixpoint for_each (urls : list yaml_value) (feed_url : option string)
    : M unit :=
  match urls with
  | [] => ret tt
  | podcast_url :: rest =>
      ivoox_id <- lift (match podcast_url with
                        | YStr u => inr (extract_id u)
                        | _ => inl TypeError
                        end) ;;
      feed_url <- (if Py.truthy ivoox_id then
                     let f := build_feed_url (default "" ivoox_id) in
                     print [OStr f] ;;; ret (Some f)
                   else
                     print [OStr "ID not found"] ;;; ret feed_url) ;;
      f <- lift (match feed_url with
                 | Some f => inr f
                 | None => inl (NameError "feed_url")
                 end) ;;
      fetch_and_save f ;;;
      for_each rest feed_url
  end.

(** The entry point once the configuration is loaded. *)
Definition main_with (config : PodcastConfig) : M unit :=
  print [OPath (downloaded_podcast_audio config)] ;;;
  print [OList (podcast_url config)] ;;;
  for_each (podcast_url config) None.

(** The [__main__] block. *)
Definition main : M unit :=
  config <- load "config.yaml" ;;
  main_with config.

End Pipeline.

(** ** The vocabulary of the specification *)

(** [url] reads [pre], then [sq_], then the token [f ds] with at least one
    digit, then [_], then [post]. *)
Definition id_at (is_decimal : N -> bool) (url pre ds post : list N) : Prop :=
  url = pre ++ Py.code_points "sq_" ++ Py.code_points "f" ++ ds
            ++ Py.code_points "_" ++ post
  /\ ds <> [] /\ forallb is_decimal ds = true.

(** The occurrence after [pre] is the leftmost one of [url]. *)
Definition leftmost_id (is_decimal : N -> bool) (url pre : list N) : Prop :=
  forall pre' ds' post',
    id_at is_decimal url pre' ds' post' -> length pre <= length pre'.

(** [e] has no child with the tag [name]. *)
Definition no_child (e : Element) (name : string) : Prop :=
  Forall (fun c => tag_of c <> name) (children_of e).

(** [c] is the first child of [e] with the tag [name], in document order. *)
Definition first_child (e : Element) (name : string) (c : Element) : Prop :=
  exists before after,
    children_of e = before ++ c :: after
    /\ tag_of c = name
    /\ Forall (fun x => tag_of x <> name) before.

(** The request for [feed_url] succeeds and its body parses to [root]. *)
Definition serves (http_get : string -> option Response)
    (fromstring : string -> option Element)
    (feed_url : string) (root : Element) : Prop :=
  exists resp,
    http_get feed_url = Some resp
    /\ raise_for_status resp = inr tt
    /\ fromstring (content resp) = Some root.

(** Validation fails with a message that names [field]. *)
Definition missing_field_error (r : exn + unit) (field : string) : Prop :=
  exists msg, r = inl (ValueError msg) /\ contains msg field = true.

(** Validation fails on the type of [podcast_url]. *)
Definition wrong_type_error (r : exn + unit) : Prop :=
  r = inl (ValueError "podcast_url must be an array of strings").

Definition is_list (v : yaml_value) : bool :=
  match v with YList _ => true | _ => false end.

(** The validation property as the specification words it: each of the
    three conditions alone decides the error. *)
Definition validate_as_stated (data : gmap string yaml_value) : Prop :=
  (data !! "podcast_url" = None ->
     missing_field_error (_validate data) "podcast_url")
  /\ (forall v, data !! "podcast_url" = Some v -> is_list v = false ->
        wrong_type_error (_validate data))
  /\ (data !! "downloaded_podcast_audio" = None ->
        missing_field_error (_validate data) "downloaded_podcast_audio").

(** [s] has no slash. *)
Fixpoint no_slash (s : string) : bool :=
  match s with
  | EmptyString => true
  | String c s' => negb (Ascii.eqb c "/") && no_slash s'
  end.

(** [seg] is what follows the last slash of [url] (all of [url] when it has
    none). *)
Definition last_segment (url seg : string) : Prop :=
  no_slash seg = true /\ (url = seg \/ exists p, url = p +:+ "/" +:+ seg).

Definition ends_with (s p : string) : Prop := exists a, s = a +:+ p.

(** [sub] occurs in [s] at index [i]. *)
Definition occurs_at (s sub : string) (i : nat) : Prop :=
  exists a b, s = a +:+ sub +:+ b /\ String.length a = i.

(** The first occurrence of [sub] in [s] is at index [i]. *)
Definition first_at (s sub : string) (i : nat) : Prop :=
  occurs_at s sub i /\ forall j, occurs_at s sub j -> i <= j.

(** The truncation rule as the specification words it, with the marker
    [.mp3] looked for in the segment itself. *)
Definition truncation_as_stated (url : string) : Prop :=
  forall seg i,
    last_segment url seg ->
    ~ ends_with seg ".mp3" -> first_at seg ".mp3" i ->
    derive_filename url = substring 0 (i + 4) seg.

(** A well-formed file system: whatever exists lies in a directory. *)
Definition wf_files (fs : gmap FS.path FS.fnode) : Prop :=
  forall p n, fs !! p = Some n -> FS.isdir fs (tail p) = true.



(** The paths the entry point may write: the download directory and the
    files right in it. *)
Definition in_download_dir (q : FS.path) : Prop :=
  q = ["downloaded_podcast_audio"]
  \/ exists name, q = [name; "downloaded_podcast_audio"].

(** [m] only adds lines to the standard output, and neither its result nor
    its files nor these lines depend on what was printed before. *)
Definition appends {A} (m : M A) : Prop :=
  forall fs, exists r fs' out,
    forall so, m (World fs so) = (r, World fs' (so ++ out)).

(** [m] leaves the file system as it is outside of [P]. *)
Definition touches {A} (P : FS.path -> Prop) (m : M A) : Prop :=
  forall w q, ~ P q -> files (snd (m w)) !! q = files w !! q.

(** The binding of [feed_url] after a pass of the loop over [urls] that ran
    to its end: the feed URL of the last entry with an identifier, the
    binding from before when there is none. *)
Fixpoint binding_after (urls : list yaml_value) (feed_url : option string)
    : option string :=
  match urls with
  | [] => feed_url
  | YStr u :: rest =>
      binding_after rest
        (match extract_id u with
         | Some tok => Some (build_feed_url tok)
         | None => feed_url
         end)
  | _ :: rest => binding_after rest feed_url
  end.

(** The URL the traversal of a parsed feed ends at: the [url] attribute of
    the first enclosure of the first item of the first channel. *)
Definition first_enclosure_url (root : Element) : option string :=
  match find root "channel" with
  | None => None
  | Some channel =>
      match find channel "item" with
      | None => None
      | Some item =>
          match find item "enclosure" with
          | None => None
          | Some enclosure => get enclosure "url"
          end
      end
  end.

(** Every entry of [fs] is still there in [fs']: a directory as a
    directory, a regular file as a regular file, whose content may have
    changed. *)
Definition keeps_entries (fs fs' : gmap FS.path FS.fnode) : Prop :=
  forall q n,
    fs !! q = Some n ->
    match n with
    | FS.Dir => fs' !! q = Some FS.Dir
    | FS.File _ => exists c, fs' !! q = Some (FS.File c)
    end.

(** The file system [fs'] is [fs] with directories added at places the
    names [p] lead through. *)
Definition grown (p : FS.path) (fs fs' : gmap FS.path FS.fnode) : Prop :=
  forall q,
    fs' !! q = fs !! q
    \/ (fs !! q = None /\ fs' !! q = Some FS.Dir
        /\ exists q', q' `suffix_of` p /\ q' <> [] /\ q = FS.place q').

(** [m] removes no entry and keeps a well-formed file system well-formed. *)
Definition conservative {A} (m : M A) : Prop :=
  forall w,
    keeps_entries (files w) (files (snd (m w)))
    /\ (wf_files (files w) -> wf_files (files (snd (m w)))).

(** ** Sample data for the instances below *)

Module Sample.

(** A server that answers every request with status 200 and [body]. *)
Definition http (body : list string) (url : string) : option Response :=
  Some {| status_code := 200; chunks := body |}.

(** A parser that reads every document as [root]. *)
Definition parser (root : Element) (xml : string) : option Element :=
  Some root.

(** [<rss><channel><title/><item><enclosure .../></item></channel></rss>] *)
Definition feed (attrs : gmap string string) : Element :=
  Elem "rss" ∅
    [Elem "channel" ∅
       [Elem "title" ∅ []; Elem "item" ∅ [Elem "enclosure" attrs []]]].

Definition empty_world : world := World ∅ [].

End Sample.

(** * Properties *)

(** ** Strings *)

Lemma append_assoc (a b c : string) : (a +:+ b) +:+ c = a +:+ (b +:+ c).
Proof. induction a as [|x a IH]; simpl; [reflexivity | now rewrite IH]. Qed.

Lemma append_nil_r (a : string) : a +:+ "" = a.
Proof. induction a as [|x a IH]; simpl; [reflexivity | now rewrite IH]. Qed.

Lemma length_append (a b : string) :
  String.length (a +:+ b) = String.length a + String.length b.
Proof. induction a as [|x a IH]; simpl; [reflexivity | now rewrite IH]. Qed.

Lemma append_inv_tail (a b c : string) : a +:+ c = b +:+ c -> a = b.
Proof.
  revert b. induction a as [|x a IH]; intros [|y b] H; simpl in H.
  - reflexivity.
  - apply (f_equal String.length) in H. simpl in H.
    rewrite length_append in H. lia.
  - apply (f_equal String.length) in H. simpl in H.
    rewrite length_append in H. lia.
  - injection H as -> H. f_equal. now apply IH.
Qed.

Lemma substring_0_append (a b : string) :
  substring 0 (String.length a) (a +:+ b) = a.
Proof. induction a as [|x a IH]; simpl; [now destruct b | now rewrite IH]. Qed.

Lemma substring_skip (a b : string) (n : nat) :
  substring (String.length a) n (a +:+ b) = substring 0 n b.
Proof. induction a as [|x a IH]; simpl; [reflexivity | exact IH]. Qed.

(** ** Identifier extraction *)

Ltac state_eq :=
  unfold Re.advance, Re.mark_end, Re.mark_start; simpl;
  repeat (f_equal; try lia).

Section Digits.

Variable is_decimal : N -> bool.

(** A character that is no digit: the underscore, below. *)
Variable us : N.
Hypothesis underscore : is_decimal us = false.

Local Abbreviation tail_pattern := [Re.Close; Re.One (Re.Chr us)].

Lemma tail_nil st : Re.match_here is_decimal tail_pattern [] st = None.
Proof. reflexivity. Qed.

Lemma tail_cons c s st :
  Re.match_here is_decimal tail_pattern (c :: s) st
  = if N.eqb c us then Some (Re.advance (Re.mark_end st)) else None.
Proof. reflexivity. Qed.

Lemma match_one c p s st r :
  Re.match_here is_decimal (Re.One (Re.Chr c) :: p) s st = Some r
  <-> exists s', s = c :: s'
                 /\ Re.match_here is_decimal p s' (Re.advance st) = Some r.
Proof.
  cbn [Re.match_here Re.atom_ok]. destruct s as [|x s].
  - split; [discriminate | now intros (? & ? & _)].
  - destruct (N.eqb_spec x c) as [->|Hne].
    + split; [eauto | now intros (? & [= <-] & ?)].
    + split; [discriminate | intros (? & [= ? _] & _); contradiction].
Qed.

Lemma match_open p s st :
  Re.match_here is_decimal (Re.Open :: p) s st
  = Re.match_here is_decimal p s (Re.mark_start st).
Proof. reflexivity. Qed.

Lemma match_many1_digit p s st r :
  Re.match_here is_decimal (Re.Many1 Re.Digit :: p) s st = Some r
  <-> exists c s', s = c :: s' /\ is_decimal c = true
        /\ Re.greedy is_decimal Re.Digit (Re.match_here is_decimal p) s'
             (Re.advance st) = Some r.
Proof.
  cbn [Re.match_here Re.atom_ok]. destruct s as [|x s].
  - split; [discriminate | now intros (? & ? & ? & _)].
  - destruct (is_decimal x) eqn:Hx.
    + split; [eauto | now intros (? & ? & [= <- <-] & _ & ?)].
    + split; [discriminate | intros (? & ? & [= <- _] & ? & _); congruence].
Qed.

(** After the first digit: the longest run of digits, and the underscore
    right behind it. *)
Lemma greedy_digits s st r :
  Re.greedy is_decimal Re.Digit (Re.match_here is_decimal tail_pattern) s st
  = Some r
  <-> exists ds post,
        s = ds ++ us :: post /\ forallb is_decimal ds = true
        /\ r = Re.MState (Re.pos st + length ds + 1) (Re.g_start st)
                 (Some (Re.pos st + length ds)).
Proof.
  revert st r. induction s as [|c s IH]; intros st r;
    cbn [Re.greedy Re.atom_ok].
  - rewrite tail_nil. split; [discriminate|].
    intros (ds & post & H & _). now destruct ds.
  - rewrite tail_cons. destruct (is_decimal c) eqn:Hd.
    + assert (Hc : N.eqb c us = false).
      { destruct (N.eqb_spec c us) as [->|]; [congruence | reflexivity]. }
      rewrite Hc. split.
      * destruct (Re.greedy _ _ _ s (Re.advance st)) as [r'|] eqn:Hg;
          [|discriminate].
        intros [= <-]. apply IH in Hg as (ds & post & -> & Hds & ->).
        exists (c :: ds), post. cbn [forallb]. rewrite Hd, Hds.
        repeat split. state_eq.
      * intros (ds & post & Heq & Hds & ->).
        destruct ds as [|c' ds]; cbn [app forallb] in Heq, Hds.
        { injection Heq as -> _. congruence. }
        injection Heq as <- ->. apply andb_prop in Hds as [_ Hds].
        rewrite (proj2 (IH (Re.advance st) _) (ex_intro _ ds (ex_intro _ post
                   (conj eq_refl (conj Hds eq_refl))))).
        f_equal. state_eq.
    + destruct (N.eqb_spec c us) as [->|Hne].
      * split.
        -- intros [= <-]. exists [], s. repeat split. state_eq.
        -- intros (ds & post & Heq & Hds & ->).
           destruct ds as [|c' ds]; cbn [app forallb] in *.
           ++ f_equal. state_eq.
           ++ injection Heq as <- _. rewrite Hd in Hds. discriminate Hds.
      * split; [discriminate|]. intros (ds & post & Heq & Hds & _).
        destruct ds as [|c' ds]; cbn [app forallb] in *.
        -- injection Heq as -> _. now contradiction Hne.
        -- injection Heq as <- _. rewrite Hd in Hds. discriminate Hds.
Qed.

(** A run of digits that stops at an underscore is determined by the text
    it is read from. *)
Lemma digits_run_unique (ds ds' post post' : list N) :
  ds ++ us :: post = ds' ++ us :: post' ->
  forallb is_decimal ds = true -> forallb is_decimal ds' = true -> ds = ds'.
Proof.
  revert ds'. induction ds as [|c ds IH]; intros [|c' ds'] H Hd Hd';
    cbn [app forallb] in *.
  - reflexivity.
  - injection H as <- _. rewrite underscore in Hd'. discriminate Hd'.
  - injection H as -> _. rewrite underscore in Hd. discriminate Hd.
  - injection H as <- H.
    apply andb_prop in Hd as [_ Hd]. apply andb_prop in Hd' as [_ Hd'].
    f_equal. now apply IH.
Qed.

End Digits.

Section Extraction.

Variable is_decimal : N -> bool.

(** The underscore is no digit. *)
Hypothesis underscore : is_decimal (Py.code "_") = false.

Local Abbreviation us := (Py.code "_").

(** The pattern matches at the head of [s] exactly when [s] starts with
    [sq_f], a run of digits and [_]; the marks of the group are then around
    [f] and the digits. *)
Lemma match_here_id s i r :
  Re.match_here is_decimal ID_PATTERN s (Re.MState i None None) = Some r
  <-> exists ds post,
        s = Py.code_points "sq_f" ++ ds ++ us :: post
        /\ ds <> [] /\ forallb is_decimal ds = true
        /\ r = Re.MState (i + 5 + length ds) (Some (i + 3))
                 (Some (i + 4 + length ds)).
Proof.
  unfold ID_PATTERN. split.
  - intros H.
    apply match_one in H as (s1 & -> & H).
    apply match_one in H as (s2 & -> & H).
    apply match_one in H as (s3 & -> & H).
    rewrite match_open in H.
    apply match_one in H as (s4 & -> & H).
    apply match_many1_digit in H as (c & s5 & -> & Hc & H).
    apply (greedy_digits _ _ underscore) in H as (ds & post & -> & Hds & ->).
    exists (c :: ds), post. cbn [forallb]. rewrite Hc, Hds.
    repeat split; [discriminate | state_eq].
  - intros (ds & post & -> & Hne & Hds & ->).
    destruct ds as [|c ds]; [contradiction|]. cbn [forallb] in Hds.
    apply andb_prop in Hds as [Hc Hds].
    apply match_one. eexists; split; [reflexivity|].
    apply match_one. eexists; split; [reflexivity|].
    apply match_one. eexists; split; [reflexivity|].
    rewrite match_open.
    apply match_one. eexists; split; [reflexivity|].
    apply match_many1_digit. exists c, (ds ++ us :: post).
    repeat split; [assumption|].
    apply (greedy_digits _ _ underscore). exists ds, post. repeat split; [assumption|].
    state_eq.
Qed.

Lemma id_at_head s ds post :
  id_at is_decimal s [] ds post
  <-> s = Py.code_points "sq_f" ++ ds ++ us :: post
      /\ ds <> [] /\ forallb is_decimal ds = true.
Proof. reflexivity. Qed.

Lemma id_at_cons c s pre ds post :
  id_at is_decimal (c :: s) (c :: pre) ds post <-> id_at is_decimal s pre ds post.
Proof.
  unfold id_at. cbn [app]. split.
  - intros ([= ->] & ? & ?). auto.
  - intros (-> & ? & ?). auto.
Qed.

(** [search_from] finds the leftmost occurrence, and none when there is
    none. *)
Lemma search_from_id s i :
  match Re.search_from is_decimal ID_PATTERN s i with
  | Some r =>
      exists pre ds post,
        id_at is_decimal s pre ds post /\ leftmost_id is_decimal s pre
        /\ Re.g_start r = Some (i + length pre + 3)
        /\ Re.g_end r = Some (i + length pre + 4 + length ds)
  | None => forall pre ds post, ~ id_at is_decimal s pre ds post
  end.
Proof.
  revert i. induction s as [|c s IH]; intros i; cbn [Re.search_from].
  - destruct (Re.match_here is_decimal ID_PATTERN [] _) as [r|] eqn:Hm.
    + apply match_here_id in Hm as (ds & post & H & _). discriminate H.
    + intros pre ds post (H & _). now destruct pre.
  - destruct (Re.match_here is_decimal ID_PATTERN (c :: s) _) as [r|] eqn:Hm.
    + apply match_here_id in Hm as (ds & post & Hs & Hne & Hds & ->).
      exists [], ds, post. split; [now apply id_at_head|].
      split; [intros pre' ds' post' _; cbn; lia|].
      cbn. split; f_equal; lia.
    + specialize (IH (S i)).
      assert (Hhead : forall ds post, ~ id_at is_decimal (c :: s) [] ds post).
      { intros ds post H. apply id_at_head in H as (Hs & Hne & Hds).
        assert (Hsome : Re.match_here is_decimal ID_PATTERN (c :: s)
                          (Re.MState i None None)
                        = Some (Re.MState (i + 5 + length ds) (Some (i + 3))
                                  (Some (i + 4 + length ds))))
          by (apply match_here_id; exists ds, post; auto).
        congruence. }
      destruct (Re.search_from is_decimal ID_PATTERN s (S i)) as [r|].
      * destruct IH as (pre & ds & post & Hid & Hleft & Hb & He).
        exists (c :: pre), ds, post.
        split; [exact (proj2 (id_at_cons _ _ _ _ _) Hid)|].
        split.
        -- intros pre' ds' post' H'. destruct pre' as [|c' pre'].
           ++ now apply Hhead in H'.
           ++ assert (c' = c) as -> by (destruct H' as ([= ->] & _); reflexivity).
              cbn [length]. apply le_n_S.
              exact (Hleft pre' ds' post' (proj1 (id_at_cons _ _ _ _ _) H')).
        -- rewrite Hb, He. cbn. split; f_equal; lia.
      * intros pre ds post H. destruct pre as [|c' pre].
        -- now apply Hhead in H.
        -- assert (c' = c) as -> by (destruct H as ([= ->] & _); reflexivity).
           exact (IH pre ds post (proj1 (id_at_cons _ _ _ _ _) H)).
Qed.

(** What [extract_id] returns, in one statement. *)
Lemma extract_id_cases url :
  match Unicode.extract_id is_decimal url with
  | Some tok =>
      exists pre ds post,
        id_at is_decimal url pre ds post /\ leftmost_id is_decimal url pre
        /\ tok = Py.code_points "f" ++ ds
  | None => forall pre ds post, ~ id_at is_decimal url pre ds post
  end.
Proof.
  unfold Unicode.extract_id, Re.search.
  pose proof (search_from_id url 0) as H.
  destruct (Re.search_from is_decimal ID_PATTERN url 0) as [r|]; [|exact H].
  destruct H as (pre & ds & post & Hid & Hleft & Hb & He).
  unfold Re.group1. cbn [Re.marks Re.subject]. rewrite Hb, He.
  exists pre, ds, post. split; [exact Hid|]. split; [exact Hleft|].
  destruct Hid as (-> & _ & _).
  replace (0 + length pre + 4 + length ds - (0 + length pre + 3))
    with (length (Py.code_points "f" ++ ds)) by (cbn; lia).
  replace (0 + length pre + 3) with (length (pre ++ Py.code_points "sq_"))
    by (rewrite length_app; cbn; lia).
  rewrite (app_assoc pre), drop_app_length.
  rewrite (app_assoc (Py.code_points "f")). apply take_app_length.
Qed.

Lemma extract_id_on_occurrence url pre ds post :
  id_at is_decimal url pre ds post -> leftmost_id is_decimal url pre ->
  Unicode.extract_id is_decimal url = Some (Py.code_points "f" ++ ds).
Proof.
  intros Hid Hleft. pose proof (extract_id_cases url) as H.
  destruct (Unicode.extract_id is_decimal url) as [tok|].
  - destruct H as (pre0 & ds0 & post0 & Hid0 & Hleft0 & ->).
    do 2 f_equal.
    assert (Hlen : length pre0 = length pre).
    { apply Nat.le_antisymm; [eapply Hleft0 | eapply Hleft]; eassumption. }
    destruct Hid as (Hu & _ & Hd). destruct Hid0 as (Hu0 & _ & Hd0).
    rewrite Hu0 in Hu. apply app_inj_1 in Hu as [_ Hu]; [|exact Hlen].
    cbn [Py.code_points list_ascii_of_string List.map app] in Hu.
    injection Hu as Hu. now apply (digits_run_unique _ _ underscore _ _ _ _ Hu).
  - now destruct (H pre ds post).
Qed.

End Extraction.

(** [re.search] looks at the digit class on the characters of the subject
    only. *)
Lemma greedy_ext d1 d2 a k1 k2 s st :
  Forall (fun c => d1 c = d2 c) s ->
  (forall s' st', Forall (fun c => d1 c = d2 c) s' -> k1 s' st' = k2 s' st') ->
  Re.greedy d1 a k1 s st = Re.greedy d2 a k2 s st.
Proof.
  intros Hs Hk. revert st. induction Hs as [|c s Hc Hs IH]; intros st;
    cbn [Re.greedy].
  - apply Hk. constructor.
  - assert (Ha : Re.atom_ok d1 a c = Re.atom_ok d2 a c)
      by (destruct a; [reflexivity | exact Hc]).
    rewrite Ha, IH, (Hk (c :: s) st) by (now constructor). reflexivity.
Qed.

Lemma match_here_ext d1 d2 p s st :
  Forall (fun c => d1 c = d2 c) s ->
  Re.match_here d1 p s st = Re.match_here d2 p s st.
Proof.
  revert s st. induction p as [|n p IH]; intros s st Hs; [reflexivity|].
  destruct n as [a|a| |]; cbn [Re.match_here]; try (now apply IH).
  - destruct Hs as [|c s Hc Hs]; [reflexivity|].
    assert (Ha : Re.atom_ok d1 a c = Re.atom_ok d2 a c)
      by (destruct a; [reflexivity | exact Hc]).
    rewrite Ha. destruct (Re.atom_ok d2 a c); [now apply IH | reflexivity].
  - destruct Hs as [|c s Hc Hs]; [reflexivity|].
    assert (Ha : Re.atom_ok d1 a c = Re.atom_ok d2 a c)
      by (destruct a; [reflexivity | exact Hc]).
    rewrite Ha. destruct (Re.atom_ok d2 a c); [|reflexivity].
    apply greedy_ext; [assumption|]. intros s' st' Hs'. now apply IH.
Qed.

Lemma extract_id_ext d1 d2 url :
  Forall (fun c => d1 c = d2 c) url ->
  Unicode.extract_id d1 url = Unicode.extract_id d2 url.
Proof.
  intros H. unfold Unicode.extract_id, Re.search.
  assert (Hs : forall i, Re.search_from d1 ID_PATTERN url i
                         = Re.search_from d2 ID_PATTERN url i).
  { induction H as [|c s Hc Hs IH]; intros i; cbn [Re.search_from].
    - reflexivity.
    - rewrite (match_here_ext d1 d2) by (now constructor).
      destruct (Re.match_here d2 _ _ _); [reflexivity | apply IH]. }
  now rewrite Hs.
Qed.

Lemma code_points_below (s : string) :
  Forall (fun c => (c < 256)%N) (Py.code_points s).
Proof.
  induction s as [|a s IH]; constructor; [apply N_ascii_bounded | exact IH].
Qed.

Lemma of_code_points_code_points (s : string) :
  Py.of_code_points (Py.code_points s) = s.
Proof.
  unfold Py.of_code_points, Py.code_points, Py.code.
  induction s as [|a s IH]; [reflexivity|].
  cbn [list_ascii_of_string List.map string_of_list_ascii].
  now rewrite ascii_N_embedding, IH.
Qed.

Lemma code_points_of_code_points (l : list N) :
  Forall (fun c => (c < 256)%N) l ->
  Py.code_points (Py.of_code_points l) = l.
Proof.
  unfold Py.of_code_points, Py.code_points, Py.code.
  induction 1 as [|c l Hc _ IH]; [reflexivity|].
  cbn [List.map string_of_list_ascii list_ascii_of_string].
  now rewrite N_ascii_embedding, IH.
Qed.

Lemma is_digit_underscore : Py.is_digit (Py.code "_") = false.
Proof. reflexivity. Qed.

(** An identifier is never empty: it starts with [f]. *)
Lemma extract_id_token u tok :
  extract_id u = Some tok -> exists ds, tok = String "f" ds.
Proof.
  unfold extract_id. intros H.
  pose proof (extract_id_cases Py.is_digit is_digit_underscore
                (Py.code_points u)) as Hc.
  destruct (Unicode.extract_id Py.is_digit (Py.code_points u)) as [t|];
    [|discriminate].
  injection H as <-. destruct Hc as (_ & ds & _ & _ & _ & ->).
  now exists (Py.of_code_points ds).
Qed.

(** On the strings of the pipeline, [extract_id] is the extraction on code
    points, for every digit class that has the digits ['0'..'9'] and no
    other below 256. *)
Lemma extract_id_latin1 (is_decimal : N -> bool) (url : string) :
  (forall c, (c < 256)%N -> is_decimal c = Py.is_digit c) ->
  Unicode.extract_id is_decimal (Py.code_points url)
  = option_map Py.code_points (extract_id url).
Proof.
  intros Hd. unfold extract_id.
  rewrite (extract_id_ext is_decimal Py.is_digit).
  2:{ eapply Forall_impl; [apply code_points_below | exact Hd]. }
  pose proof (extract_id_cases Py.is_digit is_digit_underscore
                (Py.code_points url)) as Hc.
  destruct (Unicode.extract_id Py.is_digit (Py.code_points url)) as [t|];
    [|reflexivity].
  cbn [option_map]. f_equal. symmetry. apply code_points_of_code_points.
  destruct Hc as (pre & ds & post & (Hu & _) & _ & ->).
  pose proof (code_points_below url) as Hb. rewrite Hu in Hb.
  apply Forall_app in Hb as [_ Hb]. apply Forall_app in Hb as [_ Hb].
  apply Forall_app in Hb as [Hf Hb]. apply Forall_app in Hb as [Hds _].
  apply Forall_app. now split.
Qed.

(** C1. For every URL, of whatever code points, that contains [sq_], then
    [f] and one or more digits, then [_], [extract_id] returns the token
    ([f] and the digits) of the leftmost such occurrence; for every URL
    with no occurrence it returns [None].  The digits are those of the
    class [\d], whatever decimal digits the Unicode database has: all
    that matters is that the underscore is none.  [extract_id] is a total
    function: nothing is raised. *)
Theorem extract_id_correct (is_decimal : N -> bool) (url : list N) :
  is_decimal (Py.code "_") = false ->
  (forall pre ds post,
      id_at is_decimal url pre ds post -> leftmost_id is_decimal url pre ->
      Unicode.extract_id is_decimal url = Some (Py.code_points "f" ++ ds))
  /\ ((exists pre ds post, id_at is_decimal url pre ds post) ->
      exists pre ds post,
        id_at is_decimal url pre ds post /\ leftmost_id is_decimal url pre
        /\ Unicode.extract_id is_decimal url = Some (Py.code_points "f" ++ ds))
  /\ ((forall pre ds post, ~ id_at is_decimal url pre ds post) ->
      Unicode.extract_id is_decimal url = None).
Proof.
  intros Hus. pose proof (extract_id_cases is_decimal Hus url) as H.
  split; [|split].
  - intros pre ds post. now apply extract_id_on_occurrence.
  - intros (pre & ds & post & Hid).
    destruct (Unicode.extract_id is_decimal url) as [tok|].
    + destruct H as (pre0 & ds0 & post0 & Hid0 & Hleft0 & ->). eauto 7.
    + now destruct (H pre ds post).
  - intros Hnone. destruct (Unicode.extract_id is_decimal url) as [tok|];
      [|reflexivity].
    destruct H as (pre0 & ds0 & post0 & Hid0 & _). now destruct (Hnone pre0 ds0 post0).
Qed.


Lemma extract_id_correct_witness :
  let arabic_indic c := (Py.is_digit c || (1632 <=? c) && (c <=? 1641))%N in
  let url := Py.code_points "https://ivoox.com/sq_f" ++ [1633; 1634]%N
             ++ Py.code_points "_1.html" in
  exists pre ds post,
    id_at arabic_indic url pre ds post
    /\ leftmost_id arabic_indic url pre
    /\ Unicode.extract_id arabic_indic url = Some (Py.code_points "f" ++ ds).
Proof.
  cbv zeta.
  apply (proj1 (proj2 (extract_id_correct _ _ eq_refl))).
  exists (Py.code_points "https://ivoox.com/"), [1633; 1634]%N,
    (Py.code_points "1.html").
  repeat split. discriminate.
Defined.

(** ** The feed URL *)

(** C5. [build_feed_url] puts the identifier into the fixed template; equal
    identifiers give equal URLs and distinct identifiers distinct URLs. *)
Theorem build_feed_url_injective :
  (forall ivoox_id,
      build_feed_url ivoox_id
      = "https://feeds.ivoox.com/feed_fg_" +:+ ivoox_id +:+ "_filtro_1.xml")
  /\ (forall a b, a = b -> build_feed_url a = build_feed_url b)
  /\ (forall a b, a <> b -> build_feed_url a <> build_feed_url b).
Proof.
  split; [reflexivity|]. split; [now intros a b ->|].
  intros a b Hne H. apply Hne. unfold build_feed_url in H.
  apply String.app_inj in H. now apply append_inv_tail in H.
Qed.

Lemma build_feed_url_injective_witness :
  build_feed_url "f123456"
  = "https://feeds.ivoox.com/feed_fg_f123456_filtro_1.xml"
  /\ build_feed_url "f1" <> build_feed_url "f2".
Proof.
  split.
  - exact (proj1 build_feed_url_injective "f123456").
  - apply (proj2 (proj2 build_feed_url_injective)). discriminate.
Defined.

(** ** The first enclosure of a feed *)

Lemma find_no_child e name : no_child e name -> find e name = None.
Proof.
  unfold no_child, find. induction 1 as [|c l Hc _ IH]; simpl; [reflexivity|].
  now rewrite (proj2 (String.eqb_neq _ _) Hc).
Qed.

Lemma find_first_child e name c : first_child e name c -> find e name = Some c.
Proof.
  unfold find. intros (before & after & -> & Hc & Hb).
  induction Hb as [|x l Hx _ IH]; simpl.
  - now rewrite (proj2 (String.eqb_eq _ _) Hc).
  - now rewrite (proj2 (String.eqb_neq _ _) Hx).
Qed.

Section Feed.

Variable http_get : string -> option Response.
Variable fromstring : string -> option Element.

(** Once the feed is fetched and parsed, only the traversal is left. *)
Lemma get_first_mp3_enclosure_served feed_url root w :
  serves http_get fromstring feed_url root ->
  get_first_mp3_enclosure http_get fromstring feed_url w
  = match find root "channel" with
    | None => (inr None, w)
    | Some channel =>
        match find channel "item" with
        | None => (inr None, w)
        | Some item =>
            match find item "enclosure" with
            | None => (inr None, w)
            | Some enclosure => (inr (get enclosure "url"), w)
            end
        end
    end.
Proof.
  intros (resp & Hget & Hst & Hparse).
  unfold get_first_mp3_enclosure, requests_get, bind, lift, ret.
  rewrite Hget. simpl. rewrite Hst. simpl. rewrite Hparse. simpl.
  destruct (find root "channel") as [ch|]; [|reflexivity].
  destruct (find ch "item") as [it|]; [|reflexivity].
  destruct (find it "enclosure") as [en|]; [|reflexivity].
  now destruct (_ && _).
Qed.

(** C2. A feed whose root has no [channel], or whose first [channel] has no
    [item], or whose first [item] has no [enclosure]: the result is [None]
    in each of the three cases. *)
Theorem get_first_mp3_enclosure_absent feed_url root w :
  serves http_get fromstring feed_url root ->
  no_child root "channel"
  \/ (exists channel,
        first_child root "channel" channel /\ no_child channel "item")
  \/ (exists channel item,
        first_child root "channel" channel
        /\ first_child channel "item" item
        /\ no_child item "enclosure") ->
  get_first_mp3_enclosure http_get fromstring feed_url w = (inr None, w).
Proof.
  intros Hs H. rewrite (get_first_mp3_enclosure_served _ _ _ Hs).
  destruct H as [H | [(ch & Hch & H) | (ch & it & Hch & Hit & H)]].
  - now rewrite (find_no_child _ _ H).
  - now rewrite (find_first_child _ _ _ Hch), (find_no_child _ _ H).
  - now rewrite (find_first_child _ _ _ Hch), (find_first_child _ _ _ Hit),
      (find_no_child _ _ H).
Qed.

(** C3. When the first enclosure of the first item carries a [url]
    attribute, its value is returned as it is, whatever it ends in. *)
Theorem get_first_mp3_enclosure_url feed_url root channel item enclosure u w :
  serves http_get fromstring feed_url root ->
  first_child root "channel" channel ->
  first_child channel "item" item ->
  first_child item "enclosure" enclosure ->
  attrib_of enclosure !! "url" = Some u ->
  get_first_mp3_enclosure http_get fromstring feed_url w = (inr (Some u), w).
Proof.
  intros Hs Hch Hit Hen Hu. rewrite (get_first_mp3_enclosure_served _ _ _ Hs).
  rewrite (find_first_child _ _ _ Hch), (find_first_child _ _ _ Hit),
    (find_first_child _ _ _ Hen).
  unfold get. now rewrite Hu.
Qed.

(** C9. When that enclosure carries no [url] attribute at all, the result
    is [None]. *)
Theorem get_first_mp3_enclosure_no_url feed_url root channel item enclosure w :
  serves http_get fromstring feed_url root ->
  first_child root "channel" channel ->
  first_child channel "item" item ->
  first_child item "enclosure" enclosure ->
  attrib_of enclosure !! "url" = None ->
  get_first_mp3_enclosure http_get fromstring feed_url w = (inr None, w).
Proof.
  intros Hs Hch Hit Hen Hu. rewrite (get_first_mp3_enclosure_served _ _ _ Hs).
  rewrite (find_first_child _ _ _ Hch), (find_first_child _ _ _ Hit),
    (find_first_child _ _ _ Hen).
  unfold get. now rewrite Hu.
Qed.

End Feed.

Lemma get_first_mp3_enclosure_absent_witness :
  get_first_mp3_enclosure (Sample.http ["<rss/>"])
    (Sample.parser (Elem "rss" ∅ [])) "https://feeds.ivoox.com/x.xml"
    Sample.empty_world
  = (inr None, Sample.empty_world).
Proof.
  apply (get_first_mp3_enclosure_absent _ _ _ (Elem "rss" ∅ [])).
  - eexists. repeat split.
  - left. constructor.
Defined.

Lemma sample_feed_path attrs :
  first_child (Sample.feed attrs) "channel"
    (Elem "channel" ∅
       [Elem "title" ∅ []; Elem "item" ∅ [Elem "enclosure" attrs []]])
  /\ first_child
       (Elem "channel" ∅
          [Elem "title" ∅ []; Elem "item" ∅ [Elem "enclosure" attrs []]])
       "item" (Elem "item" ∅ [Elem "enclosure" attrs []])
  /\ first_child (Elem "item" ∅ [Elem "enclosure" attrs []]) "enclosure"
       (Elem "enclosure" attrs []).
Proof.
  repeat split.
  - exists [], []. repeat split. constructor.
  - exists [Elem "title" ∅ []], []. repeat split.
    constructor; [discriminate | constructor].
  - exists [], []. repeat split. constructor.
Defined.

Lemma get_first_mp3_enclosure_url_witness :
  get_first_mp3_enclosure (Sample.http ["<rss>...</rss>"])
    (Sample.parser (Sample.feed {[ "url" := "http://example.com/ep1.mp3" ]}))
    "https://feeds.ivoox.com/x.xml" Sample.empty_world
  = (inr (Some "http://example.com/ep1.mp3"), Sample.empty_world).
Proof.
  pose proof (sample_feed_path {[ "url" := "http://example.com/ep1.mp3" ]})
    as (Hch & Hit & Hen).
  eapply get_first_mp3_enclosure_url; try eassumption.
  - eexists. repeat split.
  - reflexivity.
Defined.

Lemma get_first_mp3_enclosure_no_url_witness :
  get_first_mp3_enclosure (Sample.http ["<rss>...</rss>"])
    (Sample.parser (Sample.feed {[ "length" := "1024" ]}))
    "https://feeds.ivoox.com/x.xml" Sample.empty_world
  = (inr None, Sample.empty_world).
Proof.
  pose proof (sample_feed_path {[ "length" := "1024" ]}) as (Hch & Hit & Hen).
  eapply get_first_mp3_enclosure_no_url; try eassumption.
  - eexists. repeat split.
  - reflexivity.
Defined.

(** ** Validation of the configuration *)

(** The empty mapping lacks [podcast_url], and the error names the other
    field: the validation property does not hold as it is worded. *)
Lemma validate_empty_counterexample :
  _validate ∅
  = inl (ValueError "Missing required field: downloaded_podcast_audio")
  /\ ~ validate_as_stated ∅.
Proof.
  split; [reflexivity|]. intros (H & _).
  destruct (H eq_refl) as (msg & Hmsg & Hnames).
  injection Hmsg as <-. vm_compute in Hnames. discriminate Hnames.
Qed.

(** C6, amended.  The checks run in order, and the first one that fails
    decides the error: a mapping without [downloaded_podcast_audio] fails
    naming that field; one that has it and lacks [podcast_url] fails naming
    [podcast_url]; one that has both, with a [podcast_url] that is no list,
    fails on the type. *)
Theorem validate_first_failure (data : gmap string yaml_value) :
  (data !! "downloaded_podcast_audio" = None ->
     missing_field_error (_validate data) "downloaded_podcast_audio")
  /\ (is_Some (data !! "downloaded_podcast_audio") ->
      data !! "podcast_url" = None ->
      missing_field_error (_validate data) "podcast_url")
  /\ (is_Some (data !! "downloaded_podcast_audio") ->
      forall v, data !! "podcast_url" = Some v -> is_list v = false ->
      wrong_type_error (_validate data)).
Proof.
  unfold _validate, missing_field_error, wrong_type_error.
  split; [|split].
  - intros ->. eexists. split; [reflexivity|]. vm_compute. reflexivity.
  - intros [x ->] ->. eexists. split; [reflexivity|]. vm_compute. reflexivity.
  - intros [x ->] v -> Hv. now destruct v.
Qed.

Lemma validate_first_failure_witness :
  missing_field_error
    (_validate {[ "downloaded_podcast_audio" := YStr "./out" ]}) "podcast_url"
  /\ wrong_type_error
       (_validate (<[ "podcast_url" := YStr "https://ivoox.com/x" ]>
                     {[ "downloaded_podcast_audio" := YStr "./out" ]})).
Proof.
  split.
  - apply (proj1 (proj2 (validate_first_failure
                           {[ "downloaded_podcast_audio" := YStr "./out" ]}))).
    + eexists. reflexivity.
    + reflexivity.
  - refine (proj2 (proj2 (validate_first_failure _)) _
              (YStr "https://ivoox.com/x") _ _).
    + eexists. reflexivity.
    + reflexivity.
    + reflexivity.
Defined.

(** ** The file name of a download *)

Lemma split_no_slash seg : no_slash seg = true -> Py.split seg "/" = [seg].
Proof.
  induction seg as [|c seg IH]; simpl; [reflexivity|].
  intros H. apply andb_prop in H as [Hc H].
  apply negb_true_iff in Hc. rewrite Hc, (IH H). reflexivity.
Qed.

Lemma split_after_slash p seg :
  exists l, l <> [] /\ Py.split (p +:+ "/" +:+ seg) "/" = l ++ Py.split seg "/".
Proof.
  induction p as [|c p (l & Hl & IH)]; simpl.
  - exists [""]. split; [discriminate | reflexivity].
  - simpl in IH. rewrite IH. destruct (Ascii.eqb c "/").
    + exists ("" :: l). split; [discriminate | reflexivity].
    + destruct l as [|w l]; [contradiction|].
      exists (String c w :: l). split; [discriminate | reflexivity].
Qed.

Lemma last_of_split url seg :
  last_segment url seg -> List.last (Py.split url "/") "" = seg.
Proof.
  intros (Hns & [-> | (p & ->)]).
  - now rewrite (split_no_slash _ Hns).
  - destruct (split_after_slash p seg) as (l & _ & ->).
    rewrite (split_no_slash _ Hns). apply last_last.
Qed.

Lemma endswith_spec s p : Py.endswith s p = true <-> ends_with s p.
Proof.
  split.
  - induction s as [|c s IH]; cbn [Py.endswith]; intros H.
    + rewrite orb_false_r in H. apply String.eqb_eq in H as <-. now exists "".
    + apply orb_prop in H as [H | H].
      * apply String.eqb_eq in H as <-. now exists "".
      * destruct (IH H) as (a & ->). now exists (String c a).
  - intros (a & ->). induction a as [|c a IH].
    + cbn [String.append]. destruct p; cbn [Py.endswith];
        now rewrite String.eqb_refl.
    + change (String c a +:+ p) with (String c (a +:+ p)).
      cbn [Py.endswith]. rewrite IH. apply orb_true_r.
Qed.

Lemma startswith_spec s sub :
  Py.startswith s sub = true <-> exists b, s = sub +:+ b.
Proof.
  unfold Py.startswith. revert s.
  induction sub as [|c sub IH]; intros s.
  - destruct s; simpl; split; eauto.
  - destruct s as [|x s]; simpl.
    + split; [discriminate | now intros (? & ?)].
    + destruct (ascii_dec c x) as [<-|Hne].
      * rewrite IH. split; intros (b & H); exists b; congruence.
      * split; [discriminate | intros (b & [= ? _]); congruence].
Qed.

Lemma find_first s sub i : first_at s sub i -> Py.find s sub = Z.of_nat i.
Proof.
  revert i. induction s as [|c s IH]; intros i ((a & b & Hs & Hi) & Hmin);
    cbn [Py.find].
  - destruct a; [|discriminate]. simpl in Hs, Hi. subst i.
    now rewrite (proj2 (startswith_spec "" sub) (ex_intro _ b Hs)).
  - destruct (Py.startswith (String c s) sub) eqn:Hp.
    + apply startswith_spec in Hp as (b' & Hb').
      assert (i <= 0) by (apply Hmin; exists "", b'; now split). f_equal. lia.
    + destruct a as [|x a].
      { simpl in Hs. rewrite (proj2 (startswith_spec _ sub) (ex_intro _ b Hs)) in Hp.
        discriminate. }
      simpl in Hs, Hi. injection Hs as <- Hs. subst i.
      rewrite (IH (String.length a)).
      * destruct (Z.eqb_spec (Z.of_nat (String.length a)) (-1)); lia.
      * split; [now exists a, b|].
        intros j (a' & b' & Hs' & <-).
        assert (S (String.length a) <= S (String.length a')); [|lia].
        apply Hmin. exists (String c a'), b'. simpl. now rewrite <- Hs'.
Qed.

Lemma slice_to_nat seg (n : nat) :
  Py.slice_to seg (Z.of_nat n) = substring 0 n seg.
Proof.
  unfold Py.slice_to. destruct (Z.ltb_spec (Z.of_nat n) 0); [lia|].
  now rewrite Nat2Z.id.
Qed.

(** Every URL has a last segment. *)
Lemma last_segment_exists url : exists seg, last_segment url seg.
Proof.
  induction url as [|c url (seg & Hns & Hseg)].
  - exists "". split; [reflexivity | now left].
  - destruct (Ascii.eqb c "/") eqn:Hc.
    + apply Ascii.eqb_eq in Hc as ->. exists seg. split; [assumption|].
      right. destruct Hseg as [-> | (p & ->)]; [now exists "" | now exists (String "/" p)].
    + destruct Hseg as [-> | (p & ->)].
      * exists (String c seg). split; [cbn; now rewrite Hc, Hns | now left].
      * exists seg. split; [assumption|]. right. now exists (String c p).
Qed.

(** The derivation looks at the last segment only. *)
Lemma derive_filename_segment url seg :
  last_segment url seg ->
  derive_filename url
  = if negb (Py.endswith (Py.lower seg) ".mp3") then
      let idx := Py.find (Py.lower seg) ".mp3" in
      if negb (idx =? -1)%Z then Py.slice_to seg (idx + 4) else seg
    else seg.
Proof. intros H. unfold derive_filename. now rewrite (last_of_split _ _ H). Qed.

(** The segment [a.mp3?x.MP3] does not end with [.mp3] and contains it at
    index 1, and yet it is kept whole: the truncation rule does not hold as
    it is worded. *)
Lemma derive_filename_case_counterexample :
  derive_filename "http://example.com/a.mp3?x.MP3" = "a.mp3?x.MP3"
  /\ ~ truncation_as_stated "http://example.com/a.mp3?x.MP3".
Proof.
  split; [reflexivity|]. intros H.
  specialize (H "a.mp3?x.MP3" 1).
  assert (Hne : derive_filename "http://example.com/a.mp3?x.MP3"
                <> substring 0 (1 + 4) "a.mp3?x.MP3") by discriminate.
  apply Hne, H.
  - split; [reflexivity|]. right. now exists "http://example.com".
  - intros He. apply endswith_spec in He. discriminate He.
  - split.
    + now exists "a", "?x.MP3".
    + intros [|j] (a & b & Hs & Hl); [|lia].
      destruct a; [discriminate Hs | discriminate Hl].
Qed.

(** C4, amended.  The file name is derived from the last segment of the
    URL, and the marker [.mp3] is looked for in the lower-cased segment: a
    segment whose lower-cased form ends with the marker is kept as it is;
    one whose lower-cased form does not end with the marker but contains it
    is cut right after the first occurrence there.  Hence
    [.../episode.mp3?token=abc] and [.../episode.mp3] both give
    [episode.mp3]. *)
Theorem derive_filename_case_insensitive :
  (forall url, exists seg, last_segment url seg)
  /\ (forall url seg,
      last_segment url seg ->
      (ends_with (Py.lower seg) ".mp3" -> derive_filename url = seg)
      /\ (~ ends_with (Py.lower seg) ".mp3" ->
          forall i, first_at (Py.lower seg) ".mp3" i ->
                    derive_filename url = substring 0 (i + 4) seg))
  /\ (forall pre,
        derive_filename (pre +:+ "/episode.mp3?token=abc") = "episode.mp3")
  /\ (forall pre, derive_filename (pre +:+ "/episode.mp3") = "episode.mp3").
Proof.
  split; [exact last_segment_exists|]. split; [|split].
  - intros url seg Hseg. rewrite (derive_filename_segment _ _ Hseg). split.
    + intros He. apply endswith_spec in He. now rewrite He.
    + intros He i Hi.
      destruct (Py.endswith (Py.lower seg) ".mp3") eqn:Hb.
      { apply endswith_spec in Hb. contradiction. }
      cbn [negb]. cbv zeta. rewrite (find_first _ _ _ Hi).
      destruct (Z.eqb_spec (Z.of_nat i) (-1)); [lia|]. cbn [negb].
      replace (Z.of_nat i + 4)%Z with (Z.of_nat (i + 4)) by lia.
      apply slice_to_nat.
  - intros pre.
    rewrite (derive_filename_segment _ "episode.mp3?token=abc");
      [reflexivity|].
    split; [reflexivity | right; now exists pre].
  - intros pre.
    rewrite (derive_filename_segment _ "episode.mp3"); [reflexivity|].
    split; [reflexivity | right; now exists pre].
Qed.

Lemma derive_filename_case_insensitive_witness :
  derive_filename "http://example.com/x.MP3?y.mp3z" = substring 0 (1 + 4) "x.MP3?y.mp3z"
  /\ derive_filename "http://example.com/a.mp3?x.MP3" = "a.mp3?x.MP3".
Proof.
  assert (Hx : last_segment "http://example.com/x.MP3?y.mp3z" "x.MP3?y.mp3z")
    by (split; [reflexivity | right; now exists "http://example.com"]).
  assert (Ha : last_segment "http://example.com/a.mp3?x.MP3" "a.mp3?x.MP3")
    by (split; [reflexivity | right; now exists "http://example.com"]).
  split.
  - apply (proj2 (proj1 (proj2 derive_filename_case_insensitive) _ _ Hx)).
    + intros He. apply endswith_spec in He. discriminate He.
    + split.
      * now exists "x", "?y.mp3z".
      * intros [|j] (a & b & Hs & Hl); [|lia].
        destruct a; [discriminate Hs | discriminate Hl].
  - apply (proj1 (proj1 (proj2 derive_filename_case_insensitive) _ _ Ha)).
    now exists "a.mp3?x".
Defined.

(** ** The file system *)

Lemma isdir_node fs p : FS.isdir fs p = true <-> FS.node_at fs p = Some FS.Dir.
Proof.
  unfold FS.isdir. destruct (FS.node_at fs p) as [[|c]|]; split;
    congruence.
Qed.

Lemma entry_lookup fs (c : FS.path) : c <> [] -> FS.entry fs c = fs !! c.
Proof. now destruct c. Qed.

Lemma entry_not_root fs (c : FS.path) :
  FS.entry fs c <> Some FS.Dir -> c <> [].
Proof. intros H ->. now apply H. Qed.

Lemma entry_insert_ne fs (c q : FS.path) n :
  c <> q -> FS.entry (<[c := n]> fs) q = FS.entry fs q.
Proof.
  intros Hne. destruct q as [|x q]; [reflexivity|].
  cbn [FS.entry]. now apply lookup_insert_ne.
Qed.

Lemma entry_insert_eq fs (c : FS.path) n :
  c <> [] -> FS.entry (<[c := n]> fs) c = Some n.
Proof. intros Hc. rewrite entry_lookup by assumption. apply lookup_insert_eq. Qed.

Lemma suffix_cons_cases {A} (q : list A) x p :
  q `suffix_of` x :: p -> q = x :: p \/ q `suffix_of` p.
Proof.
  intros [k Hk]. destruct k as [|y k]; simpl in Hk.
  - left. congruence.
  - right. injection Hk as _ ->. now exists k.
Qed.

(** Where names lead to is where they would lead if everything was
    there. *)
Lemma locate_place fs p c : FS.locate fs p = inr c -> c = FS.place p.
Proof.
  revert c. induction p as [|x p IH]; intros c; cbn [FS.locate FS.place].
  - now intros [= <-].
  - destruct (FS.locate fs p) as [e|d]; [discriminate|].
    rewrite <- (IH d eq_refl).
    destruct (FS.entry fs d) as [[|z]|]; try discriminate. now intros [= <-].
Qed.

(** Names lead through directories. *)
Lemma locate_above fs x p c :
  FS.locate fs (x :: p) = inr c -> FS.isdir fs p = true.
Proof.
  cbn [FS.locate]. rewrite isdir_node. unfold FS.node_at.
  destruct (FS.locate fs p) as [e|d]; [discriminate|].
  now destruct (FS.entry fs d) as [[|z]|].
Qed.

Lemma isdir_locate fs p :
  FS.isdir fs p = true ->
  FS.locate fs p = inr (FS.place p)
  /\ FS.entry fs (FS.place p) = Some FS.Dir.
Proof.
  rewrite isdir_node. unfold FS.node_at.
  destruct (FS.locate fs p) as [e|c] eqn:Hl; [discriminate|].
  now rewrite <- (locate_place _ _ _ Hl).
Qed.


(** The names above a directory lead to directories. *)
Lemma isdir_suffix fs p q :
  FS.isdir fs p = true -> q `suffix_of` p -> FS.isdir fs q = true.
Proof.
  induction p as [|x p IH]; intros Hp Hq.
  - apply suffix_nil_inv in Hq as ->. reflexivity.
  - apply suffix_cons_cases in Hq as [-> | Hq]; [assumption|].
    apply IH; [|assumption].
    destruct (isdir_locate _ _ Hp) as (Hl & _). exact (locate_above _ _ _ _ Hl).
Qed.

(** A place that names lead to has no [..] in it and leads to itself. *)
Lemma locate_self fs p c :
  FS.locate fs p = inr c ->
  Forall (fun x => x <> "..") c /\ FS.locate fs c = inr c.
Proof.
  revert c. induction p as [|x p IH]; intros c; cbn [FS.locate].
  - intros [= <-]. now split.
  - destruct (FS.locate fs p) as [e|d]; [discriminate|].
    destruct (IH d eq_refl) as (Hclean & Hself).
    destruct (FS.entry fs d) as [[|z]|] eqn:Hd; try discriminate.
    intros [= <-]. unfold FS.step.
    destruct (String.eqb_spec x "..") as [->|Hx].
    + destruct d as [|y d]; [now split|]. cbn [tail].
      apply Forall_cons_iff in Hclean as (Hy & Hclean).
      split; [assumption|]. revert Hself. cbn [FS.locate].
      destruct (FS.locate fs d) as [e|d']; [discriminate|].
      destruct (FS.entry fs d') as [[|z]|]; try discriminate.
      unfold FS.step. rewrite (proj2 (String.eqb_neq _ _) Hy).
      now intros [= ->].
    + split; [now constructor|]. cbn [FS.locate]. rewrite Hself, Hd.
      unfold FS.step. now rewrite (proj2 (String.eqb_neq _ _) Hx).
Qed.

(** It lies in a directory. *)
Lemma locate_parent fs p c :
  FS.locate fs p = inr c -> c <> [] -> FS.isdir fs (tail c) = true.
Proof.
  intros Hl Hc. destruct (locate_self _ _ _ Hl) as (_ & Hself).
  destruct c as [|y c]; [contradiction|]. exact (locate_above _ _ _ _ Hself).
Qed.

Lemma keeps_entries_refl fs : keeps_entries fs fs.
Proof. intros q [|c] H; eauto. Qed.

Lemma keeps_entries_trans fs1 fs2 fs3 :
  keeps_entries fs1 fs2 -> keeps_entries fs2 fs3 -> keeps_entries fs1 fs3.
Proof.
  intros H12 H23 q n H. specialize (H12 q n H). destruct n as [|c].
  - exact (H23 q _ H12).
  - destruct H12 as (c' & H12). exact (H23 q _ H12).
Qed.

Lemma keeps_entries_dir fs fs' c :
  keeps_entries fs fs' -> FS.entry fs c = Some FS.Dir ->
  FS.entry fs' c = Some FS.Dir.
Proof. destruct c; [reflexivity|]. intros H Hc. exact (H _ _ Hc). Qed.

(** What is not a directory can be written over. *)
Lemma keeps_entries_insert fs (c : FS.path) n :
  FS.entry fs c = None
  \/ (exists z, FS.entry fs c = Some (FS.File z)) /\ n <> FS.Dir ->
  keeps_entries fs (<[c := n]> fs).
Proof.
  intros Hc q m Hq. destruct (decide (c = q)) as [<-|Hne].
  - assert (Hr : c <> [])
      by (apply (entry_not_root fs); destruct Hc as [-> | ((z & ->) & _)];
          discriminate).
    rewrite lookup_insert_eq. rewrite entry_lookup, Hq in Hc by assumption.
    destruct Hc as [[=] | ((z & [= ->]) & Hn)].
    destruct n as [|z']; [contradiction | eauto].
  - rewrite lookup_insert_ne by assumption. now apply keeps_entries_refl.
Qed.

(** Where names lead to does not change when nothing is removed. *)
Lemma locate_keeps fs fs' p c :
  keeps_entries fs fs' -> FS.locate fs p = inr c -> FS.locate fs' p = inr c.
Proof.
  intros Hk. revert c. induction p as [|x p IH]; intros c; cbn [FS.locate];
    [auto|].
  destruct (FS.locate fs p) as [e|d]; [discriminate|].
  rewrite (IH d eq_refl).
  destruct (FS.entry fs d) as [[|z]|] eqn:Hd; try discriminate.
  now rewrite (keeps_entries_dir _ _ _ Hk Hd).
Qed.

Lemma isdir_keeps fs fs' p :
  keeps_entries fs fs' -> FS.isdir fs p = true -> FS.isdir fs' p = true.
Proof.
  intros Hk Hp. destruct (isdir_locate _ _ Hp) as (Hl & He).
  apply isdir_node. unfold FS.node_at. rewrite (locate_keeps _ _ _ _ Hk Hl).
  now apply (keeps_entries_dir fs).
Qed.

Lemma wf_insert fs p c n :
  wf_files fs -> FS.locate fs p = inr c ->
  FS.entry fs c = None
  \/ (exists z, FS.entry fs c = Some (FS.File z)) /\ n <> FS.Dir ->
  wf_files (<[c := n]> fs).
Proof.
  intros Hwf Hl Hc q m Hq.
  apply (isdir_keeps fs); [now apply keeps_entries_insert|].
  destruct (decide (c = q)) as [<-|Hne].
  - apply (locate_parent _ _ _ Hl), (entry_not_root fs).
    destruct Hc as [-> | ((z & ->) & _)]; discriminate.
  - rewrite lookup_insert_ne in Hq by assumption. exact (Hwf q m Hq).
Qed.

(** ** Making directories *)

Lemma mkdir_inv p fs fs' :
  FS.mkdir p fs = inr fs' ->
  FS.locate fs p = inr (FS.place p)
  /\ FS.entry fs (FS.place p) = None
  /\ fs' = <[FS.place p := FS.Dir]> fs.
Proof.
  unfold FS.mkdir. destruct (FS.locate fs p) as [e|c] eqn:Hl; [discriminate|].
  rewrite <- (locate_place _ _ _ Hl).
  destruct (FS.entry fs c) as [n|] eqn:Hc; [discriminate|].
  now intros [= <-].
Qed.

Lemma grown_refl p fs : grown p fs fs.
Proof. intros q. now left. Qed.

Lemma grown_cons x p fs fs' : grown p fs fs' -> grown (x :: p) fs fs'.
Proof.
  intros H q. destruct (H q) as [Heq | (Hn & Hd & q' & Hq' & Hne & ->)];
    [now left | right].
  split; [assumption|]. split; [assumption|]. exists q'.
  split; [now apply suffix_cons_r | now split].
Qed.

Lemma grown_insert p fs fs1 :
  p <> [] -> grown p fs fs1 -> FS.entry fs1 (FS.place p) = None ->
  grown p fs (<[FS.place p := FS.Dir]> fs1).
Proof.
  intros Hp H Hnone q. destruct (decide (FS.place p = q)) as [<-|Hne].
  - rewrite entry_lookup in Hnone
      by (apply (entry_not_root fs1); now rewrite Hnone).
    rewrite lookup_insert_eq.
    destruct (H (FS.place p)) as [Heq | (_ & Hd & _)]; [|congruence].
    right. rewrite <- Heq. split; [assumption|]. split; [reflexivity|].
    now exists p.
  - rewrite lookup_insert_ne by assumption. apply H.
Qed.

Lemma grown_keeps p fs fs' : grown p fs fs' -> keeps_entries fs fs'.
Proof.
  intros H q n Hq. destruct (H q) as [-> | (Hn & _)].
  - now apply keeps_entries_refl.
  - congruence.
Qed.

Lemma pass_exists_snd r : snd (FS.pass_exists r) = snd r.
Proof. destruct r as [[e|[]] fs]; [now destruct e | reflexivity]. Qed.

Lemma pass_exists_ok fs' r :
  FS.pass_exists r = (inr tt, fs') ->
  r = (inr tt, fs') \/ r = (inl FileExistsError, fs').
Proof.
  destruct r as [[e|[]] fs]; [|now left].
  destruct e; try discriminate. intros [= <-]. now right.
Qed.

(** What [makedirs] changes, however it ends. *)
Lemma makedirs_grows p fs : grown p fs (snd (FS.makedirs p true fs)).
Proof.
  revert fs. induction p as [|x p IH]; intros fs; [apply grown_refl|].
  cbn [FS.makedirs].
  assert (HA : grown (x :: p) fs
                 (snd (if negb (FS.exists_ fs p)
                       then FS.pass_exists (FS.makedirs p true fs)
                       else (inr tt, fs)))).
  { destruct (negb (FS.exists_ fs p)); [|apply grown_refl].
    rewrite pass_exists_snd. apply grown_cons, IH. }
  destruct (if negb (FS.exists_ fs p) then _ else _) as [[e|[]] fs1];
    cbn [snd] in *; [exact HA|].
  destruct (FS.mkdir (x :: p) fs1) as [e|fs2] eqn:Hmk; cbn [snd];
    [exact HA|].
  apply mkdir_inv in Hmk as (_ & Hnone & ->).
  now apply grown_insert.
Qed.

Lemma makedirs_keeps p fs : keeps_entries fs (snd (FS.makedirs p true fs)).
Proof. exact (grown_keeps _ _ _ (makedirs_grows p fs)). Qed.

(** [makedirs] with [exist_ok] leaves an existing directory alone. *)
Lemma makedirs_existing fs p :
  FS.isdir fs p = true -> FS.makedirs p true fs = (inr tt, fs).
Proof.
  intros Hp. destruct p as [|x p]; [reflexivity|].
  cbn [FS.makedirs].
  assert (Hh : FS.isdir fs p = true)
    by (apply (isdir_suffix fs (x :: p)); auto; apply suffix_cons_r; reflexivity).
  unfold FS.exists_. apply isdir_node in Hh as Hn. rewrite Hn. cbn [negb].
  destruct (isdir_locate _ _ Hp) as (Hl & He).
  unfold FS.mkdir. rewrite Hl, He. now rewrite Hp.
Qed.

(** [makedirs] with [exist_ok], when it returns, has made [p] a
    directory. *)
Lemma makedirs_isdir fs fs' p :
  FS.makedirs p true fs = (inr tt, fs') -> FS.isdir fs' p = true.
Proof.
  destruct p as [|x p]; [reflexivity|]. cbn [FS.makedirs].
  destruct (if negb (FS.exists_ fs p) then _ else _) as [[e|[]] fs1];
    [discriminate|].
  destruct (FS.mkdir (x :: p) fs1) as [e|fs2] eqn:Hmk.
  - cbn [andb]. destruct (FS.isdir fs1 (x :: p)) eqn:Hd; [|discriminate].
    now intros [= <-].
  - intros [= <-]. apply mkdir_inv in Hmk as (Hl & Hnone & ->).
    assert (Hr : FS.place (x :: p) <> [])
      by (apply (entry_not_root fs1); now rewrite Hnone).
    apply isdir_node. unfold FS.node_at.
    rewrite (locate_keeps fs1 _ _ _ (keeps_entries_insert _ _ _ (or_introl Hnone)) Hl).
    now apply entry_insert_eq.
Qed.


(** The outcome of the directory step and its run. *)
Lemma os_makedirs_inr name exist_ok fs fs' :
  os_makedirs name exist_ok fs = inr fs'
  <-> os_makedirs_run name exist_ok fs = (inr tt, fs').
Proof.
  unfold os_makedirs.
  destruct (os_makedirs_run name exist_ok fs) as [[e|[]] fs1]; split;
    congruence.
Qed.


Lemma os_makedirs_nonempty name exist_ok fs fs' :
  os_makedirs name exist_ok fs = inr fs' -> name <> "".
Proof.
  rewrite os_makedirs_inr. unfold os_makedirs_run. now intros H ->.
Qed.

Lemma os_makedirs_isdir name fs fs' :
  os_makedirs name true fs = inr fs' -> FS.isdir fs' (FS.resolve name) = true.
Proof.
  rewrite os_makedirs_inr. unfold os_makedirs_run.
  destruct (String.eqb name ""); [discriminate|].
  apply makedirs_isdir.
Qed.

Lemma os_makedirs_run_grows name fs :
  grown (FS.resolve name) fs (snd (os_makedirs_run name true fs)).
Proof.
  unfold os_makedirs_run. destruct (String.eqb name "");
    [apply grown_refl | apply makedirs_grows].
Qed.



(** ** Writing a file *)

Lemma write_file_inv p z fs fs' :
  FS.write_file p z fs = inr fs' ->
  FS.locate fs p = inr (FS.place p)
  /\ (FS.entry fs (FS.place p) = None
      \/ exists z0, FS.entry fs (FS.place p) = Some (FS.File z0))
  /\ fs' = <[FS.place p := FS.File z]> fs.
Proof.
  unfold FS.write_file.
  destruct (FS.locate fs p) as [e|c] eqn:Hl; [discriminate|].
  rewrite <- (locate_place _ _ _ Hl).
  destruct (FS.entry fs c) as [[|z0]|] eqn:Hc; try discriminate;
    intros [= <-]; eauto.
Qed.

Lemma write_file_keeps p z fs fs' :
  FS.write_file p z fs = inr fs' -> keeps_entries fs fs'.
Proof.
  intros H. apply write_file_inv in H as (_ & Hc & ->).
  apply keeps_entries_insert. destruct Hc as [Hc | Hc]; [now left | right].
  split; [assumption | discriminate].
Qed.

Lemma write_file_frame p z fs fs' q :
  FS.write_file p z fs = inr fs' -> q <> FS.place p -> fs' !! q = fs !! q.
Proof.
  intros H Hq. apply write_file_inv in H as (_ & _ & ->).
  now apply lookup_insert_ne.
Qed.

(** ** The destination directory *)

Section Directory.

Variable http_get : string -> option Response.


(** The two steps of [download_mp3]. *)
Lemma download_mp3_steps mp3_url dest_folder w :
  download_mp3 http_get mp3_url dest_folder w
  = match os_makedirs_run dest_folder true (files w) with
    | (inl e, fs1) => (inl e, World fs1 (stdout w))
    | (inr _, fs1) =>
        save_mp3 http_get mp3_url dest_folder (World fs1 (stdout w))
    end.
Proof.
  unfold download_mp3, bind, on_files_so_far.
  now destruct (os_makedirs_run dest_folder true (files w)) as [[e|[]] fs1].
Qed.

Lemma download_mp3_made mp3_url dest_folder fs1 w :
  os_makedirs dest_folder true (files w) = inr fs1 ->
  download_mp3 http_get mp3_url dest_folder w
  = save_mp3 http_get mp3_url dest_folder (World fs1 (stdout w)).
Proof.
  rewrite os_makedirs_inr, download_mp3_steps. now intros ->.
Qed.


End Directory.


Lemma wf_files_empty : wf_files ∅.
Proof. intros p n H. rewrite lookup_empty in H. discriminate H. Defined.



(** ** Paths *)

Lemma split_parts_no_slash s :
  Forall (fun w => no_slash w = true) (Py.split s "/").
Proof.
  induction s as [|c s IH]; cbn [Py.split].
  - now constructor.
  - destruct (Ascii.eqb c "/") eqn:Hc; [now constructor|].
    destruct (Py.split s "/") as [|w ws]; constructor; try constructor.
    + cbn. now rewrite Hc.
    + apply Forall_inv in IH. cbn. now rewrite Hc.
    + now apply Forall_inv_tail in IH.
Qed.

Lemma no_slash_substring s n :
  no_slash s = true -> no_slash (substring 0 n s) = true.
Proof.
  revert n. induction s as [|c s IH]; intros [|n] H; try reflexivity.
  cbn in *. apply andb_prop in H as [-> H]. now rewrite IH.
Qed.

(** The file name has no slash in it. *)
Lemma derive_filename_no_slash url : no_slash (derive_filename url) = true.
Proof.
  unfold derive_filename.
  assert (H : no_slash (List.last (Py.split url "/") "") = true).
  { pose proof (split_parts_no_slash url) as Hs.
    induction Hs as [|w [|w' ws] Hw Hs IH]; try reflexivity; assumption. }
  destruct (negb (Py.endswith _ _)); [|exact H].
  cbv zeta. destruct (negb _); [|exact H].
  unfold Py.slice_to. now apply no_slash_substring.
Qed.

Lemma split_nonempty s : Py.split s "/" <> [].
Proof.
  destruct s as [|c s]; cbn [Py.split]; [discriminate|].
  destruct (Ascii.eqb c "/"); [discriminate|].
  destruct (Py.split s "/"); discriminate.
Qed.

(** Splitting distributes over a slash. *)
Lemma split_app a b :
  Py.split (a +:+ "/" +:+ b) "/" = Py.split a "/" ++ Py.split b "/".
Proof.
  induction a as [|c a IH].
  - reflexivity.
  - change (String c a +:+ "/" +:+ b) with (String c (a +:+ "/" +:+ b)).
    cbn [Py.split]. rewrite IH. destruct (Ascii.eqb c "/"); [reflexivity|].
    pose proof (split_nonempty a) as Hne.
    destruct (Py.split a "/") as [|w ws]; [contradiction | reflexivity].
Qed.

Lemma no_slash_startswith name :
  no_slash name = true -> Py.startswith name "/" = false.
Proof.
  intros H. destruct (Py.startswith name "/") eqn:Hp; [|reflexivity].
  apply startswith_spec in Hp as (b & ->). discriminate H.
Qed.

(** The names of [os.path.join(dest, name)] for a name without slash: the
    name after those of the directory, unless it is empty or a dot. *)
Lemma resolve_join dest name :
  dest <> "" -> no_slash name = true ->
  FS.resolve (FS.join dest name)
  = (if FS.is_name name then [name] else []) ++ FS.resolve dest.
Proof.
  intros Hd Hn. unfold FS.join. rewrite (no_slash_startswith _ Hn).
  rewrite (proj2 (String.eqb_neq _ _) Hd). cbn [orb].
  assert (Hrev : forall l,
             rev (List.filter FS.is_name (l ++ [name]))
             = (if FS.is_name name then [name] else [])
               ++ rev (List.filter FS.is_name l)).
  { intros l. rewrite List.filter_app. cbn [List.filter].
    destruct (FS.is_name name).
    - now rewrite rev_unit.
    - now rewrite app_nil_r. }
  destruct (Py.endswith dest "/") eqn:He.
  - apply endswith_spec in He as (d & ->). unfold FS.resolve.
    rewrite append_assoc. cbn [String.append].
    change (String "/" name) with ("/" +:+ name).
    rewrite split_app, (split_no_slash _ Hn), Hrev. do 2 f_equal.
    change (d +:+ "/") with (d +:+ "/" +:+ "").
    rewrite split_app, List.filter_app. cbn. now rewrite app_nil_r.
  - unfold FS.resolve.
    rewrite split_app, (split_no_slash _ Hn). apply Hrev.
Qed.

(** A path spelled by [pathlib] has the names it had. *)
Lemma split_concat names :
  names <> [] -> Forall (fun w => no_slash w = true) names ->
  Py.split (String.concat "/" names) "/" = names.
Proof.
  induction names as [|a [|b l] IH]; intros Hne Hall; [contradiction| |].
  - apply split_no_slash. now apply Forall_inv in Hall.
  - change (String.concat "/" (a :: b :: l))
      with (a +:+ "/" +:+ String.concat "/" (b :: l)).
    rewrite split_app, IH; [|discriminate | now apply Forall_inv_tail in Hall].
    now rewrite (split_no_slash a (Forall_inv Hall)).
Qed.

Lemma filter_filter_names l :
  List.filter FS.is_name (List.filter FS.is_name l) = List.filter FS.is_name l.
Proof.
  induction l as [|a l IH]; [reflexivity|]. cbn [List.filter].
  destruct (FS.is_name a) eqn:Ha; [|exact IH].
  cbn [List.filter]. now rewrite Ha, IH.
Qed.

Lemma Forall_filter_names (P : string -> Prop) l :
  Forall P l -> Forall P (List.filter FS.is_name l).
Proof.
  induction 1 as [|a l Ha _ IH]; [constructor|]. cbn [List.filter].
  destruct (FS.is_name a); [now constructor | exact IH].
Qed.

Lemma resolve_Path p : FS.resolve (FS.Path p) = FS.resolve p.
Proof.
  unfold FS.Path, FS.resolve. f_equal.
  set (names := List.filter FS.is_name (Py.split p "/")).
  assert (Hns : Forall (fun w => no_slash w = true) names)
    by apply Forall_filter_names, split_parts_no_slash.
  assert (Hff : List.filter FS.is_name names = names)
    by apply filter_filter_names.
  destruct names as [|a l] eqn:Hnames.
  - now destruct (Py.startswith p "//" && negb (Py.startswith p "///"));
      [|destruct (Py.startswith p "/")].
  - rewrite <- Hnames in *.
    assert (Hne : names <> []) by (rewrite Hnames; discriminate).
    destruct (Py.startswith p "//" && negb (Py.startswith p "///")).
    + change ("//" +:+ String.concat "/" names)
        with ("" +:+ "/" +:+ "" +:+ "/" +:+ String.concat "/" names).
      rewrite !split_app, (split_concat _ Hne Hns). exact Hff.
    + destruct (Py.startswith p "/").
      * change ("/" +:+ String.concat "/" names)
          with ("" +:+ "/" +:+ String.concat "/" names).
        rewrite split_app, (split_concat _ Hne Hns). exact Hff.
      * cbn [String.append]. now rewrite (split_concat _ Hne Hns).
Qed.

(** ** The loop of the entry point *)

Section Loop.

Variable http_get : string -> option Response.
Variable fromstring : string -> option Element.

Local Abbreviation loop := (for_each http_get fromstring).
Local Abbreviation steps := (fetch_and_save http_get fromstring).

(** An identifier, when there is one, starts with [f]: it is true in a
    condition. *)
Lemma extract_id_truthy u tok :
  extract_id u = Some tok -> Py.truthy (Some tok) = true.
Proof. intros H. now destruct (extract_id_token _ _ H) as (ds & ->). Qed.

Lemma for_each_with_id u tok rest feed_url w :
  extract_id u = Some tok ->
  loop (YStr u :: rest) feed_url w
  = (print [OStr (build_feed_url tok)] ;;;
     steps (build_feed_url tok) ;;;
     loop rest (Some (build_feed_url tok))) w.
Proof.
  intros H. cbn [for_each]. unfold bind at 1. cbn [lift].
  rewrite H. cbn [ret]. rewrite (extract_id_truthy _ _ H). reflexivity.
Qed.

Lemma for_each_without_id u rest feed_url w :
  extract_id u = None ->
  loop (YStr u :: rest) feed_url w
  = (print [OStr "ID not found"] ;;;
     f <- lift (match feed_url with
                | Some f => inr f
                | None => inl (NameError "feed_url")
                end) ;;
     steps f ;;;
     loop rest feed_url) w.
Proof.
  intros H. cbn [for_each]. unfold bind at 1. cbn [lift].
  rewrite H. reflexivity.
Qed.


End Loop.


(** ** Where the entry point writes *)

Section Effects.

Context {A B : Type}.

Lemma appends_ret (a : A) : appends (ret a).
Proof. intros fs. exists (inr a), fs, []. intros so. now rewrite app_nil_r. Qed.

Lemma appends_raise (e : exn) : appends (raise e : M A).
Proof. intros fs. exists (inl e), fs, []. intros so. now rewrite app_nil_r. Qed.

Lemma appends_lift (r : exn + A) : appends (lift r).
Proof. destruct r; [apply appends_raise | apply appends_ret]. Qed.

Lemma appends_bind (m : M A) (k : A -> M B) :
  appends m -> (forall a, appends (k a)) -> appends (bind m k).
Proof.
  intros Hm Hk fs. destruct (Hm fs) as (r & fs1 & out1 & H1).
  destruct r as [e|a].
  - exists (inl e), fs1, out1. intros so. unfold bind. now rewrite H1.
  - destruct (Hk a fs1) as (r2 & fs2 & out2 & H2).
    exists r2, fs2, (out1 ++ out2). intros so. unfold bind.
    now rewrite H1, H2, app_assoc.
Qed.

Lemma touches_ret P (a : A) : touches P (ret a).
Proof. now intros w q _. Qed.

Lemma touches_raise P (e : exn) : touches P (raise e : M A).
Proof. now intros w q _. Qed.

Lemma touches_lift P (r : exn + A) : touches P (lift r).
Proof. destruct r; [apply touches_raise | apply touches_ret]. Qed.

Lemma touches_bind P (m : M A) (k : A -> M B) :
  touches P m -> (forall a, touches P (k a)) -> touches P (bind m k).
Proof.
  intros Hm Hk w q Hq. unfold bind. specialize (Hm w q Hq).
  destruct (m w) as [[e|a] w1]; [exact Hm|].
  rewrite (Hk a w1 q Hq). exact Hm.
Qed.

End Effects.

Lemma appends_print args : appends (print args).
Proof. intros fs. now exists (inr tt), fs, [args]. Qed.

Lemma appends_on_files f : appends (on_files f).
Proof.
  intros fs. unfold on_files. cbn [files stdout].
  destruct (f fs) as [e|fs'].
  - exists (inl e), fs, []. intros so. now rewrite app_nil_r.
  - exists (inr tt), fs', []. intros so. now rewrite app_nil_r.
Qed.

Lemma appends_on_files_so_far f : appends (on_files_so_far f).
Proof.
  intros fs. unfold on_files_so_far. cbn [files stdout].
  destruct (f fs) as [r fs'].
  exists r, fs', []. intros so. now rewrite app_nil_r.
Qed.

Lemma touches_print P args : touches P (print args).
Proof. now intros w q _. Qed.

Lemma touches_on_files (P : FS.path -> Prop) f :
  (forall fs fs' q, f fs = inr fs' -> ~ P q -> fs' !! q = fs !! q) ->
  touches P (on_files f).
Proof.
  intros Hf w q Hq. unfold on_files.
  destruct (f (files w)) as [e|fs'] eqn:H; [reflexivity|].
  exact (Hf _ _ _ H Hq).
Qed.

Lemma touches_on_files_so_far (P : FS.path -> Prop) f :
  (forall fs q, ~ P q -> snd (f fs) !! q = fs !! q) ->
  touches P (on_files_so_far f).
Proof.
  intros Hf w q Hq. unfold on_files_so_far. specialize (Hf (files w) q Hq).
  now destruct (f (files w)) as [r fs'].
Qed.

Create HintDb effects.
#[local] Hint Resolve appends_ret appends_raise appends_lift appends_print
  appends_on_files appends_on_files_so_far touches_ret touches_raise touches_lift touches_print
  : effects.

(** Split a computation at its binds and its case distinctions, and close
    the leaves with the lemmas above. *)
Ltac effects :=
  repeat first
    [ solve [auto with effects]
    | progress cbv zeta
    | apply appends_bind; [|intro]
    | apply touches_bind; [|intro]
    | match goal with
      | |- appends (match ?x with _ => _ end) => destruct x
      | |- touches _ (match ?x with _ => _ end) => destruct x
      end ].

(** The directory step of the entry point makes the download directory
    and nothing else. *)
Lemma makedirs_download_dir fs q :
  ~ in_download_dir q ->
  snd (os_makedirs_run "downloaded_podcast_audio" true fs) !! q = fs !! q.
Proof.
  intros Hq.
  destruct (os_makedirs_run_grows "downloaded_podcast_audio" fs q)
    as [Heq | (_ & _ & q' & Hq' & Hne & ->)]; [exact Heq|].
  exfalso. apply Hq. left. revert Hq'.
  change (FS.resolve "downloaded_podcast_audio")
    with ["downloaded_podcast_audio"].
  intros Hq'. apply suffix_cons_cases in Hq' as [-> | Hq']; [reflexivity|].
  apply suffix_nil_inv in Hq'. contradiction.
Qed.

(** A file name without slash is saved right in the download directory,
    when it is saved. *)
Lemma write_in_download_dir name z fs fs' q :
  no_slash name = true ->
  FS.write_file (FS.resolve (FS.join "downloaded_podcast_audio" name)) z fs
  = inr fs' ->
  ~ in_download_dir q -> fs' !! q = fs !! q.
Proof.
  intros Hn Hw Hq. apply (write_file_frame _ _ _ _ _ Hw). intros ->.
  apply write_file_inv in Hw as (_ & Hc & _).
  assert (Hr : FS.place (FS.resolve (FS.join "downloaded_podcast_audio" name))
               <> []).
  { apply (entry_not_root fs). destruct Hc as [-> | (z0 & ->)]; discriminate. }
  apply Hq. revert Hr. rewrite resolve_join by (discriminate || assumption).
  change (FS.resolve "downloaded_podcast_audio")
    with ["downloaded_podcast_audio"].
  destruct (FS.is_name name); cbn [app FS.place]; unfold FS.step;
    cbn [String.eqb Ascii.eqb Bool.eqb tail]; [|now left].
  destruct (String.eqb name ".."); [contradiction|]. right. now exists name.
Qed.

Section Writes.

Variable http_get : string -> option Response.
Variable fromstring : string -> option Element.

Lemma appends_get_first_mp3_enclosure feed_url :
  appends (get_first_mp3_enclosure http_get fromstring feed_url).
Proof. unfold get_first_mp3_enclosure. effects. Qed.

Lemma touches_get_first_mp3_enclosure P feed_url :
  touches P (get_first_mp3_enclosure http_get fromstring feed_url).
Proof. unfold get_first_mp3_enclosure. effects. Qed.

Lemma appends_download_mp3 mp3_url dest_folder :
  appends (download_mp3 http_get mp3_url dest_folder).
Proof. unfold download_mp3, save_mp3. effects. Qed.

Lemma touches_download_mp3 mp3_url :
  touches in_download_dir
    (download_mp3 http_get mp3_url "downloaded_podcast_audio").
Proof.
  unfold download_mp3, save_mp3. effects.
  - apply touches_on_files_so_far. apply makedirs_download_dir.
  - apply touches_on_files. intros fs fs' q.
    apply write_in_download_dir, derive_filename_no_slash.
Qed.

#[local] Hint Resolve appends_get_first_mp3_enclosure
  touches_get_first_mp3_enclosure appends_download_mp3
  touches_download_mp3 : effects.

Lemma appends_fetch_and_save feed_url :
  appends (fetch_and_save http_get fromstring feed_url).
Proof. unfold fetch_and_save. effects. Qed.

Lemma touches_fetch_and_save feed_url :
  touches in_download_dir (fetch_and_save http_get fromstring feed_url).
Proof. unfold fetch_and_save. effects. Qed.

#[local] Hint Resolve appends_fetch_and_save touches_fetch_and_save
  : effects.



End Writes.

(** ** What a download writes *)

(** Leaving the empty strings out of a list does not change what the list
    concatenates to. *)
Lemma concat_without_empty (l : list string) :
  fold_right String.append ""
    (List.filter (fun chunk => negb (String.eqb chunk "")) l)
  = fold_right String.append "" l.
Proof.
  induction l as [|c l IH]; [reflexivity|].
  cbn [List.filter fold_right]. destruct (String.eqb_spec c "") as [->|Hc].
  - cbn [negb]. exact IH.
  - cbn [negb fold_right]. now rewrite IH.
Qed.

(** X1. Skipping the empty chunks loses nothing: what is written is the
    body of the response, and its length is the sum of the lengths of the
    chunks. *)
Theorem streamed_content (r : Response) :
  streamed r = content r
  /\ String.length (streamed r)
     = list_sum (List.map String.length (chunks r)).
Proof.
  unfold streamed, content. rewrite concat_without_empty. split; [reflexivity|].
  induction (chunks r) as [|c l IH]; [reflexivity|].
  cbn [fold_right List.map list_sum]. now rewrite length_append, IH.
Qed.



Section Download.

Variable http_get : string -> option Response.



(** X3. When the media request raises or is answered with an error status,
    no file is opened: [download_mp3] raises (an [HTTPError] with that
    status in the second case) and the file system is as the directory
    step left it, so a file of that name saved earlier is not cut. *)
Theorem download_mp3_request_failure u dest_folder fs1 w :
  os_makedirs dest_folder true (files w) = inr fs1 ->
  (http_get u = None
   \/ exists r, http_get u = Some r
                /\ (400 <= status_code r < 600)%Z) ->
  exists e,
    download_mp3 http_get (Some u) dest_folder w
    = (inl e, World fs1 (stdout w))
    /\ (forall r, http_get u = Some r -> e = HTTPError (status_code r)).
Proof.
  intros Hmk H. rewrite (download_mp3_made _ _ _ _ _ Hmk).
  unfold save_mp3, bind, on_files, lift, ret, raise, requests_get,
    raise_for_status.
  cbn [files stdout].
  destruct H as [Hget | (r & Hget & Hlo & Hhi)]; rewrite Hget.
  - exists RequestException. split; [reflexivity | discriminate].
  - apply Z.leb_le in Hlo. apply Z.ltb_lt in Hhi. rewrite Hlo, Hhi.
    exists (HTTPError (status_code r)). split; [reflexivity|].
    now intros r' [= <-].
Qed.

(** X4. A URL that ends with a slash has the empty file name: the path to
    open is the directory itself, and the download raises
    [IsADirectoryError] once the request has succeeded. *)
Theorem download_mp3_trailing_slash pre dest_folder r fs1 w :
  os_makedirs dest_folder true (files w) = inr fs1 ->
  http_get (pre +:+ "/") = Some r -> raise_for_status r = inr tt ->
  derive_filename (pre +:+ "/") = ""
  /\ download_mp3 http_get (Some (pre +:+ "/")) dest_folder w
     = (inl IsADirectoryError, World fs1 (stdout w)).
Proof.
  intros Hmk Hget Hst.
  assert (Hf : derive_filename (pre +:+ "/") = "").
  { rewrite (derive_filename_segment _ ""); [reflexivity|].
    split; [reflexivity|]. right. exists pre. now rewrite append_nil_r. }
  split; [exact Hf|].
  rewrite (download_mp3_made _ _ _ _ _ Hmk).
  unfold save_mp3, bind, on_files, lift, ret, requests_get.
  rewrite Hget. cbn [files stdout]. rewrite Hst. cbn [files stdout].
  rewrite Hf, (resolve_join _ "" (os_makedirs_nonempty _ _ _ _ Hmk) eq_refl).
  cbn [app]. change (FS.is_name "") with false. cbv iota. cbn [app].
  destruct (isdir_locate _ _ (os_makedirs_isdir _ _ _ Hmk)) as (Hl & He).
  unfold FS.write_file. now rewrite Hl, He.
Qed.

End Download.

(** ** The shape of the file name *)

Lemma find_ge s sub : (-1 <= Py.find s sub)%Z.
Proof.
  induction s as [|c s IH]; cbn [Py.find];
    destruct (Py.startswith _ sub); try lia.
  destruct (Z.eqb_spec (Py.find s sub) (-1)); lia.
Qed.

Lemma find_none s sub :
  Py.find s sub = (-1)%Z -> forall a b, s <> a +:+ sub +:+ b.
Proof.
  induction s as [|c s IH]; cbn [Py.find]; intros H a b Hs.
  - destruct (Py.startswith "" sub) eqn:Hp; [discriminate|].
    destruct a; [|discriminate Hs].
    now rewrite (proj2 (startswith_spec "" sub) (ex_intro _ b Hs)) in Hp.
  - destruct (Py.startswith (String c s) sub) eqn:Hp; [discriminate|].
    destruct a as [|x a].
    + now rewrite (proj2 (startswith_spec _ sub) (ex_intro _ b Hs)) in Hp.
    + injection Hs as _ Hs. revert Hs. apply IH.
      destruct (Z.eqb_spec (Py.find s sub) (-1)); [assumption|].
      pose proof (find_ge s sub). lia.
Qed.

Lemma find_occurs s sub :
  Py.find s sub <> (-1)%Z ->
  exists a b, s = a +:+ sub +:+ b
              /\ Py.find s sub = Z.of_nat (String.length a).
Proof.
  induction s as [|c s IH]; cbn [Py.find]; intros H.
  - destruct (Py.startswith "" sub) eqn:Hp; [|contradiction].
    apply startswith_spec in Hp as (b & Hb). now exists "", b.
  - destruct (Py.startswith (String c s) sub) eqn:Hp.
    + apply startswith_spec in Hp as (b & Hb). now exists "", b.
    + destruct (Z.eqb_spec (Py.find s sub) (-1)) as [|Hne]; [contradiction|].
      destruct (IH Hne) as (a & b & -> & Hf).
      exists (String c a), b. split; [reflexivity|]. rewrite Hf.
      cbn [String.length]. lia.
Qed.

Lemma lower_substring s n :
  Py.lower (substring 0 n s) = substring 0 n (Py.lower s).
Proof.
  revert n. induction s as [|c s IH]; intros [|n]; try reflexivity.
  cbn. now rewrite IH.
Qed.

Lemma lower_length s : String.length (Py.lower s) = String.length s.
Proof. induction s as [|c s IH]; cbn; [reflexivity | now rewrite IH]. Qed.

Lemma substring_is_prefix s n : exists rest, s = substring 0 n s +:+ rest.
Proof.
  revert n. induction s as [|c s IH]; intros [|n].
  - now exists "".
  - now exists "".
  - now exists (String c s).
  - destruct (IH n) as (rest & H). exists rest. cbn. now rewrite <- H.
Qed.

(** What the two tests of the derivation make of a segment. *)
Lemma derive_segment_cases seg :
  let name :=
    if negb (Py.endswith (Py.lower seg) ".mp3") then
      let idx := Py.find (Py.lower seg) ".mp3" in
      if negb (idx =? -1)%Z then Py.slice_to seg (idx + 4) else seg
    else seg in
  (exists rest, seg = name +:+ rest)
  /\ ((exists a b, Py.lower seg = a +:+ ".mp3" +:+ b) ->
      ends_with (Py.lower name) ".mp3")
  /\ ((forall a b, Py.lower seg <> a +:+ ".mp3" +:+ b) -> name = seg).
Proof.
  cbv zeta. destruct (Py.endswith (Py.lower seg) ".mp3") eqn:He; cbn [negb].
  - apply endswith_spec in He. split; [|split]; auto.
    exists "". now rewrite append_nil_r.
  - destruct (Z.eqb_spec (Py.find (Py.lower seg) ".mp3") (-1)) as [Hf|Hf];
      cbn [negb].
    + split; [|split]; auto.
      * exists "". now rewrite append_nil_r.
      * intros (a & b & H). now destruct (find_none _ _ Hf a b).
    + destruct (find_occurs _ _ Hf) as (a & b & Hs & Hi). rewrite Hi.
      replace (Z.of_nat (String.length a) + 4)%Z
        with (Z.of_nat (String.length (a +:+ ".mp3")))
        by (rewrite length_append; cbn; lia).
      rewrite slice_to_nat. split; [|split].
      * apply substring_is_prefix.
      * intros _. rewrite lower_substring, Hs, <- append_assoc.
        rewrite substring_0_append. now exists a.
      * intros Hno. now destruct (Hno a b).
Qed.

Lemma derive_filename_cases url seg :
  last_segment url seg ->
  (exists rest, seg = derive_filename url +:+ rest)
  /\ ((exists a b, Py.lower seg = a +:+ ".mp3" +:+ b) ->
      ends_with (Py.lower (derive_filename url)) ".mp3")
  /\ ((forall a b, Py.lower seg <> a +:+ ".mp3" +:+ b) ->
      derive_filename url = seg).
Proof.
  intros H. rewrite (derive_filename_segment _ _ H).
  apply derive_segment_cases.
Qed.

(** X5. The derived name is a part of the last segment of the URL: always
    a prefix of it, and so without a slash; and it is the whole segment
    when the lower-cased segment ends with the marker [.mp3], and when the
    marker occurs nowhere in it. *)
Theorem derive_filename_prefix url seg :
  last_segment url seg ->
  (exists rest, seg = derive_filename url +:+ rest)
  /\ no_slash (derive_filename url) = true
  /\ (ends_with (Py.lower seg) ".mp3" -> derive_filename url = seg)
  /\ ((forall a b, Py.lower seg <> a +:+ ".mp3" +:+ b) ->
      derive_filename url = seg).
Proof.
  intros H. destruct (derive_filename_cases _ _ H) as (Hp & _ & Hno).
  split; [exact Hp|]. split; [apply derive_filename_no_slash|].
  split; [|exact Hno].
  intros He. rewrite (derive_filename_segment _ _ H).
  apply endswith_spec in He. now rewrite He.
Qed.

Lemma derive_filename_prefix_witness :
  (exists rest, "Ep.MP3?download=1"
                = derive_filename "http://example.com/a/Ep.MP3?download=1" +:+ rest)
  /\ derive_filename "http://example.com/a/notes.txt" = "notes.txt".
Proof.
  assert (H : last_segment "http://example.com/a/Ep.MP3?download=1"
                "Ep.MP3?download=1")
    by (split; [reflexivity | right; now exists "http://example.com/a"]).
  assert (H' : last_segment "http://example.com/a/notes.txt" "notes.txt")
    by (split; [reflexivity | right; now exists "http://example.com/a"]).
  split.
  - exact (proj1 (derive_filename_prefix _ _ H)).
  - apply (proj2 (proj2 (proj2 (derive_filename_prefix _ _ H')))).
    intros a b Hs. apply (find_none "notes.txt" ".mp3" eq_refl a b Hs).
Defined.

(** A name that came out of the derivation goes through it unchanged. *)
Lemma derive_segment_fixed url :
  let name := derive_filename url in
  (if negb (Py.endswith (Py.lower name) ".mp3") then
     let idx := Py.find (Py.lower name) ".mp3" in
     if negb (idx =? -1)%Z then Py.slice_to name (idx + 4) else name
   else name) = name.
Proof.
  cbv zeta. destruct (last_segment_exists url) as (seg & Hseg).
  destruct (derive_filename_cases _ _ Hseg) as (_ & Hyes & Hno).
  destruct (Py.endswith (Py.lower (derive_filename url)) ".mp3") eqn:He;
    cbn [negb]; [reflexivity|].
  destruct (Z.eqb_spec (Py.find (Py.lower (derive_filename url)) ".mp3") (-1))
    as [Hf|Hf]; cbn [negb]; [reflexivity|].
  exfalso. destruct (find_occurs _ _ Hf) as (a & b & Hs & _).
  destruct (Z.eqb_spec (Py.find (Py.lower seg) ".mp3") (-1)) as [Hg|Hg].
  - rewrite (Hno (find_none _ _ Hg)) in Hs. now destruct (find_none _ _ Hg a b).
  - destruct (find_occurs _ _ Hg) as (a' & b' & Hs' & _).
    assert (Hend : ends_with (Py.lower (derive_filename url)) ".mp3")
      by (apply Hyes; eauto).
    apply endswith_spec in Hend. congruence.
Qed.

(** X6. The derivation is idempotent: a name it produced, taken again as
    the last segment of a URL (or as the whole URL), is derived to
    itself. *)
Theorem derive_filename_idempotent url :
  derive_filename (derive_filename url) = derive_filename url
  /\ forall pre,
       derive_filename (pre +:+ "/" +:+ derive_filename url)
       = derive_filename url.
Proof.
  pose proof (derive_filename_no_slash url) as Hns. split.
  - rewrite (derive_filename_segment (derive_filename url) (derive_filename url))
      by (split; [assumption | now left]).
    apply derive_segment_fixed.
  - intros pre.
    rewrite (derive_filename_segment _ (derive_filename url))
      by (split; [assumption | right; now exists pre]).
    apply derive_segment_fixed.
Qed.

(** ** Loading the configuration *)

(** X7. Validation passes exactly when [downloaded_podcast_audio] is
    present, with whatever value, and [podcast_url] is present and a list,
    with whatever elements; and when it fails it fails with a
    [ValueError]. *)
Theorem validate_accepts (data : gmap string yaml_value) :
  (_validate data = inr tt
   <-> is_Some (data !! "downloaded_podcast_audio")
       /\ exists l, data !! "podcast_url" = Some (YList l))
  /\ (forall e, _validate data = inl e -> exists msg, e = ValueError msg).
Proof.
  unfold _validate. split; [split|].
  - intros H. destruct (data !! "downloaded_podcast_audio") as [v|];
      [|discriminate].
    split; [eauto|].
    destruct (data !! "podcast_url") as [[| | | |l|]|]; try discriminate.
    eauto.
  - intros ([v ->] & l & ->). reflexivity.
  - intros e H. destruct (data !! "downloaded_podcast_audio") as [v|];
      [destruct (data !! "podcast_url") as [[| | | |l|]|]|];
      try discriminate; injection H as <-; eauto.
Qed.

Section Loading.

Variable safe_load : string -> option yaml_value.

Lemma load_world config_path w : snd (load safe_load config_path w) = w.
Proof.
  unfold load, bind, lift, ret, raise. cbv zeta.
  destruct (FS.exists_ _ _); cbn [negb]; [|reflexivity].
  destruct (FS.read_file _ _) as [e|text]; [reflexivity|].
  destruct (safe_load text) as [[| | | | |data]|]; try reflexivity.
  destruct (_validate data) as [e|[]]; [reflexivity|].
  destruct (data !! "downloaded_podcast_audio") as [[| | |p| |]|];
    try reflexivity.
  destruct (data !! "podcast_url") as [[| | | |l|]|]; reflexivity.
Qed.

(** X8. [load] returns a configuration exactly when the path is a regular
    file, its text parses to a mapping, [downloaded_podcast_audio] is a
    string and [podcast_url] is a list.  The configuration holds the list
    as it is and the string as [Path] spells it ([./out] becomes [out]).
    Loading changes neither files nor output. *)
Theorem load_returns config_path w c w' :
  load safe_load config_path w = (inr c, w')
  <-> w' = w
      /\ exists text data p,
           FS.node_at (files w) (FS.resolve config_path) = Some (FS.File text)
           /\ safe_load text = Some (YMap data)
           /\ data !! "downloaded_podcast_audio" = Some (YStr p)
           /\ downloaded_podcast_audio c = FS.Path p
           /\ data !! "podcast_url" = Some (YList (podcast_url c)).
Proof.
  split.
  - intros H. pose proof (load_world config_path w) as Hw.
    rewrite H in Hw. cbn in Hw. split; [assumption|].
    revert H. unfold load, bind, lift, ret, raise, FS.exists_, FS.read_file.
    cbv zeta. rewrite resolve_Path.
    destruct (FS.node_at _ _) as [[|text]|]; cbn [negb]; try discriminate.
    destruct (safe_load text) as [[| | | | |data]|] eqn:Hd; try discriminate.
    destruct (_validate data) as [e|[]]; [discriminate|].
    destruct (data !! "downloaded_podcast_audio") as [[| | |p| |]|] eqn:Hp;
      try discriminate.
    destruct (data !! "podcast_url") as [[| | | |l|]|] eqn:Hl;
      try discriminate.
    intros [= <- _]. now exists text, data, p.
  - intros (-> & text & data & p & Hn & Hd & Hp & Hc & Hl).
    unfold load, bind, lift, ret, raise, FS.exists_, FS.read_file.
    cbv zeta. rewrite resolve_Path, Hn. cbn [negb]. rewrite Hd.
    unfold _validate. rewrite Hp, Hl. cbn [fst snd]. rewrite <- Hc.
    now destruct c.
Qed.

(** X9. Validation does not look at the value of
    [downloaded_podcast_audio]: a mapping in which it is no string passes
    validation, and [load] then raises [TypeError] when it builds the
    path. *)
Theorem load_path_not_string config_path w text data v l :
  FS.node_at (files w) (FS.resolve config_path) = Some (FS.File text) ->
  safe_load text = Some (YMap data) ->
  data !! "downloaded_podcast_audio" = Some v ->
  (forall p, v <> YStr p) ->
  data !! "podcast_url" = Some (YList l) ->
  _validate data = inr tt
  /\ load safe_load config_path w = (inl TypeError, w).
Proof.
  intros Hn Hd Hv Hns Hl.
  assert (Hval : _validate data = inr tt)
    by (unfold _validate; now rewrite Hv, Hl).
  split; [exact Hval|].
  unfold load, bind, lift, ret, raise, FS.exists_, FS.read_file.
  cbv zeta. rewrite resolve_Path, Hn. cbn [negb]. rewrite Hd, Hval, Hv.
  destruct v; try reflexivity. now destruct (Hns s).
Qed.

Variable http_get : string -> option Response.
Variable fromstring : string -> option Element.

(** X10. The entry point is the loading followed by the run: when loading
    raises, the run ends with that exception before anything is printed,
    fetched or written; a missing [config.yaml] ends it with
    [FileNotFoundError]. *)
Theorem main_after_load w :
  (forall e, fst (load safe_load "config.yaml" w) = inl e ->
             main http_get fromstring safe_load w = (inl e, w))
  /\ (forall c, fst (load safe_load "config.yaml" w) = inr c ->
                main http_get fromstring safe_load w
                = main_with http_get fromstring c w)
  /\ (FS.node_at (files w) ["config.yaml"] = None ->
      main http_get fromstring safe_load w
      = (inl (FileNotFoundError "Config file not found: config.yaml"), w)).
Proof.
  pose proof (load_world "config.yaml" w) as Hw.
  unfold main, bind.
  split; [|split].
  - intros e He. destruct (load safe_load "config.yaml" w) as [r w0].
    cbn in Hw, He. now subst.
  - intros c Hc. destruct (load safe_load "config.yaml" w) as [r w0].
    cbn in Hw, Hc. subst. reflexivity.
  - intros Hn. unfold load, FS.exists_. cbv zeta.
    change (FS.Path "config.yaml") with "config.yaml".
    change (FS.resolve "config.yaml") with ["config.yaml"]. now rewrite Hn.
Qed.

End Loading.

(** ** Fetching the feed and running the loop *)

Section Run.

Variable http_get : string -> option Response.
Variable fromstring : string -> option Element.

Local Abbreviation fetch := (get_first_mp3_enclosure http_get fromstring).
Local Abbreviation loop := (for_each http_get fromstring).
Local Abbreviation steps := (fetch_and_save http_get fromstring).

(** Every outcome of fetching the feed. *)
Lemma get_first_mp3_enclosure_outcome feed_url w :
  fetch feed_url w
  = match http_get feed_url with
    | None => (inl RequestException, w)
    | Some r =>
        if (400 <=? status_code r)%Z && (status_code r <? 600)%Z
        then (inl (HTTPError (status_code r)), w)
        else match fromstring (content r) with
             | None => (inl ParseError, w)
             | Some root => (inr (first_enclosure_url root), w)
             end
    end.
Proof.
  unfold get_first_mp3_enclosure, bind, lift, ret, raise, requests_get,
    raise_for_status, first_enclosure_url.
  destruct (http_get feed_url) as [r|]; [|reflexivity].
  destruct (_ && _); [reflexivity|].
  destruct (fromstring (content r)) as [root|]; [|reflexivity].
  destruct (find root "channel") as [ch|]; [|reflexivity].
  destruct (find ch "item") as [it|]; [|reflexivity].
  destruct (find it "enclosure") as [en|]; [|reflexivity].
  cbv zeta. now destruct (_ && _).
Qed.

(** X11. Fetching the feed changes neither files nor output, and it raises
    in three cases only: the request raises, the status is an error status
    (then it is an [HTTPError] with that status), or the parser raises on
    the body.  A feed that lacks the expected elements is no error: the
    result is what the traversal ends at. *)
Theorem get_first_mp3_enclosure_raises feed_url w :
  snd (fetch feed_url w) = w
  /\ ((exists e, fst (fetch feed_url w) = inl e)
      <-> http_get feed_url = None
          \/ (exists r, http_get feed_url = Some r
                        /\ (400 <= status_code r < 600)%Z)
          \/ (exists r, http_get feed_url = Some r
                        /\ fromstring (content r) = None))
  /\ (forall r,
        http_get feed_url = Some r -> (400 <= status_code r < 600)%Z ->
        fst (fetch feed_url w) = inl (HTTPError (status_code r)))
  /\ (forall r root,
        http_get feed_url = Some r -> ~ (400 <= status_code r < 600)%Z ->
        fromstring (content r) = Some root ->
        fst (fetch feed_url w) = inr (first_enclosure_url root)).
Proof.
  rewrite get_first_mp3_enclosure_outcome.
  destruct (http_get feed_url) as [r|].
  - assert (Hst : (400 <=? status_code r)%Z && (status_code r <? 600)%Z = true
                  <-> (400 <= status_code r < 600)%Z)
      by (rewrite andb_true_iff, Z.leb_le, Z.ltb_lt; reflexivity).
    destruct ((400 <=? status_code r)%Z && (status_code r <? 600)%Z).
    + apply proj1 in Hst. specialize (Hst eq_refl).
      split; [reflexivity|]. split; [|split].
      * split; [|eauto]. intros _. right. left. eauto.
      * now intros r' [= <-] _.
      * intros r' root [= <-] Hn. contradiction.
    + assert (Hn : ~ (400 <= status_code r < 600)%Z)
        by (intros H; apply Hst in H; discriminate).
      destruct (fromstring (content r)) as [root|] eqn:Hp.
      * split; [reflexivity|]. split; [|split].
        -- split; [now intros (e & [=])|].
           intros [[=] | [(r' & [= <-] & H) | (r' & [= <-] & H)]];
             [contradiction | congruence].
        -- intros r' [= <-] H. contradiction.
        -- intros r' root' [= <-] _ H. cbn [fst]. congruence.
      * split; [reflexivity|]. split; [|split].
        -- split; [|eauto]. intros _. right. right. eauto.
        -- intros r' [= <-] H. contradiction.
        -- intros r' root' [= <-] _ H. congruence.
  - split; [reflexivity|]. split; [|split].
    + split; [|eauto]. intros _. now left.
    + intros r [=].
    + intros r root [=].
Qed.

(** The loop over a list in two parts. *)
Lemma for_each_app l1 l2 feed_url w :
  loop (l1 ++ l2) feed_url w
  = match loop l1 feed_url w with
    | (inr _, w') => loop l2 (binding_after l1 feed_url) w'
    | (inl e, w') => (inl e, w')
    end.
Proof.
  revert feed_url w. induction l1 as [|v l1 IH]; intros feed_url w.
  - reflexivity.
  - cbn [app binding_after].
    destruct v as [| | |u| |];
      try (cbn [for_each]; unfold bind, lift, raise; reflexivity).
    destruct (extract_id u) as [tok|] eqn:Hid.
    + rewrite !(for_each_with_id _ _ _ _ _ _ _ Hid). unfold bind.
      destruct (print _ w) as [[e|[]] w1]; [reflexivity|].
      destruct (steps _ w1) as [[e|[]] w2]; [reflexivity|]. apply IH.
    + rewrite !(for_each_without_id _ _ _ _ _ _ Hid). unfold bind.
      destruct (print _ w) as [[e|[]] w1]; [reflexivity|].
      destruct feed_url as [f|]; cbn [lift ret raise]; [|reflexivity].
      destruct (steps _ w1) as [[e|[]] w2]; [reflexivity|]. apply IH.
Qed.

(** X12. The loop over [l1 ++ l2] is the loop over [l1] followed by the
    loop over [l2], which starts from the feed URL the first part left
    bound.  Nothing isolates a failure: when the first part raises, the
    whole loop raises the same exception in the same state, and no entry
    of [l2] is looked at. *)
Theorem for_each_sequence l1 l2 feed_url w :
  (forall w', loop l1 feed_url w = (inr tt, w') ->
              loop (l1 ++ l2) feed_url w
              = loop l2 (binding_after l1 feed_url) w')
  /\ (forall e w', loop l1 feed_url w = (inl e, w') ->
                   loop (l1 ++ l2) feed_url w = (inl e, w')).
Proof.
  split; intros; rewrite for_each_app.
  - now replace (loop l1 feed_url w) with (inr tt : exn + unit, w').
  - now replace (loop l1 feed_url w) with (inl e : exn + unit, w').
Qed.

(** X13. Validation accepts a list with entries that are no strings, and
    the loop raises [TypeError] at the first such entry, after the entries
    before it were processed; the entries after it are not. *)
Theorem for_each_non_string l1 v rest feed_url w :
  (forall u, v <> YStr u) ->
  (forall data,
      is_Some (data !! "downloaded_podcast_audio") ->
      data !! "podcast_url" = Some (YList (l1 ++ v :: rest)) ->
      _validate data = inr tt)
  /\ loop (l1 ++ v :: rest) feed_url w
     = match loop l1 feed_url w with
       | (inr _, w') => (inl TypeError, w')
       | (inl e, w') => (inl e, w')
       end.
Proof.
  intros Hv. split.
  - intros data [x Hx] Hl. unfold _validate. now rewrite Hx, Hl.
  - rewrite for_each_app. destruct (loop l1 feed_url w) as [[e|[]] w'];
      [reflexivity|].
    destruct v; try reflexivity. now destruct (Hv s).
Qed.

(** X14. When the feed of a URL yields no enclosure URL, nothing guards the
    download: the line [First MP3 URL: None] is printed, the download
    directory is made, and the run stops with [AttributeError]; the
    remaining URLs are not processed. *)
Theorem for_each_no_enclosure u tok rest feed_url r root fs1 w :
  extract_id u = Some tok ->
  http_get (build_feed_url tok) = Some r ->
  raise_for_status r = inr tt ->
  fromstring (content r) = Some root ->
  first_enclosure_url root = None ->
  os_makedirs "downloaded_podcast_audio" true (files w) = inr fs1 ->
  loop (YStr u :: rest) feed_url w
  = (inl AttributeError,
     World fs1 (stdout w ++ [[OStr (build_feed_url tok)];
                             [OStr "First MP3 URL:"; ONone]])).
Proof.
  intros Hid Hget Hst Hparse Hnone Hmk.
  rewrite (for_each_with_id _ _ _ _ _ _ _ Hid).
  unfold fetch_and_save, bind at 1 2 3. cbn [print].
  rewrite get_first_mp3_enclosure_outcome, Hget.
  unfold raise_for_status in Hst.
  destruct (_ && _); [discriminate|]. rewrite Hparse, Hnone.
  unfold bind at 1 2. cbn [print of_optstr stdout files].
  rewrite (download_mp3_made _ _ _ fs1) by exact Hmk.
  unfold save_mp3, bind, lift, raise. cbn [files stdout].
  now rewrite <- app_assoc.
Qed.





End Run.

(** ** What the run leaves of the file system *)

Lemma mkdir_conservative p fs fs' :
  FS.mkdir p fs = inr fs' ->
  keeps_entries fs fs' /\ (wf_files fs -> wf_files fs').
Proof.
  intros H. apply mkdir_inv in H as (Hl & Hn & ->). split.
  - apply keeps_entries_insert. now left.
  - intros Hwf. apply (wf_insert _ p); auto.
Qed.

Lemma makedirs_wf p fs :
  wf_files fs -> wf_files (snd (FS.makedirs p true fs)).
Proof.
  revert fs. induction p as [|x p IH]; intros fs Hwf; [exact Hwf|].
  cbn [FS.makedirs].
  assert (HA : wf_files (snd (if negb (FS.exists_ fs p)
                              then FS.pass_exists (FS.makedirs p true fs)
                              else (inr tt, fs)))).
  { destruct (negb (FS.exists_ fs p)); [|exact Hwf].
    rewrite pass_exists_snd. now apply IH. }
  destruct (if negb (FS.exists_ fs p) then _ else _) as [[e|[]] fs1];
    cbn [snd] in *; [exact HA|].
  destruct (FS.mkdir (x :: p) fs1) as [e|fs2] eqn:Hmk; cbn [snd];
    [exact HA|].
  now apply (mkdir_conservative _ _ _ Hmk).
Qed.

Lemma os_makedirs_run_conservative name fs :
  keeps_entries fs (snd (os_makedirs_run name true fs))
  /\ (wf_files fs -> wf_files (snd (os_makedirs_run name true fs))).
Proof.
  split; [exact (grown_keeps _ _ _ (os_makedirs_run_grows name fs))|].
  unfold os_makedirs_run. destruct (String.eqb name ""); [auto|].
  apply makedirs_wf.
Qed.

Lemma write_file_conservative p c fs fs' :
  FS.write_file p c fs = inr fs' ->
  keeps_entries fs fs' /\ (wf_files fs -> wf_files fs').
Proof.
  intros H. split; [exact (write_file_keeps _ _ _ _ H)|].
  apply write_file_inv in H as (Hl & Hc & ->).
  intros Hwf. apply (wf_insert _ p); [assumption..|].
  destruct Hc as [Hc | Hc]; [now left | right].
  split; [assumption | discriminate].
Qed.

Section Conservative.

Context {A B : Type}.

Lemma conservative_ret (a : A) : conservative (ret a).
Proof. intros w. split; [apply keeps_entries_refl | auto]. Qed.

Lemma conservative_raise (e : exn) : conservative (raise e : M A).
Proof. intros w. split; [apply keeps_entries_refl | auto]. Qed.

Lemma conservative_lift (r : exn + A) : conservative (lift r).
Proof. destruct r; [apply conservative_raise | apply conservative_ret]. Qed.

Lemma conservative_bind (m : M A) (k : A -> M B) :
  conservative m -> (forall a, conservative (k a)) -> conservative (bind m k).
Proof.
  intros Hm Hk w. unfold bind. destruct (Hm w) as (Hk1 & Hw1).
  destruct (m w) as [[e|a] w1]; [now split|].
  destruct (Hk a w1) as (Hk2 & Hw2). cbn [snd] in *.
  split; [eapply keeps_entries_trans; eassumption | auto].
Qed.

End Conservative.

Lemma conservative_print args : conservative (print args).
Proof. intros w. split; [apply keeps_entries_refl | auto]. Qed.

Lemma conservative_on_files f :
  (forall fs fs', f fs = inr fs' ->
                  keeps_entries fs fs' /\ (wf_files fs -> wf_files fs')) ->
  conservative (on_files f).
Proof.
  intros Hf w. unfold on_files.
  destruct (f (files w)) as [e|fs'] eqn:H.
  - split; [apply keeps_entries_refl | auto].
  - exact (Hf _ _ H).
Qed.

#[local] Hint Resolve conservative_ret conservative_raise conservative_lift
  conservative_print : effects.

Lemma conservative_on_files_so_far f :
  (forall fs, keeps_entries fs (snd (f fs))
              /\ (wf_files fs -> wf_files (snd (f fs)))) ->
  conservative (on_files_so_far f).
Proof.
  intros Hf w. unfold on_files_so_far. specialize (Hf (files w)).
  now destruct (f (files w)) as [r fs'].
Qed.

Ltac conservative :=
  repeat first
    [ solve [auto with effects]
    | progress cbv zeta
    | apply conservative_bind; [|intro]
    | match goal with
      | |- conservative (match ?x with _ => _ end) => destruct x
      end ].

Section Leaves.

Variable http_get : string -> option Response.
Variable fromstring : string -> option Element.

Lemma conservative_get_first_mp3_enclosure feed_url :
  conservative (get_first_mp3_enclosure http_get fromstring feed_url).
Proof. unfold get_first_mp3_enclosure. conservative. Qed.

Lemma conservative_download_mp3 mp3_url dest_folder :
  conservative (download_mp3 http_get mp3_url dest_folder).
Proof.
  unfold download_mp3, save_mp3. conservative.
  - apply conservative_on_files_so_far. apply os_makedirs_run_conservative.
  - apply conservative_on_files. intros fs fs'. apply write_file_conservative.
Qed.

#[local] Hint Resolve conservative_get_first_mp3_enclosure
  conservative_download_mp3 : effects.

Lemma conservative_fetch_and_save feed_url :
  conservative (fetch_and_save http_get fromstring feed_url).
Proof. unfold fetch_and_save. conservative. Qed.

#[local] Hint Resolve conservative_fetch_and_save : effects.

Lemma conservative_for_each urls feed_url :
  conservative (for_each http_get fromstring urls feed_url).
Proof.
  revert feed_url. induction urls as [|u urls IH]; intros feed_url;
    cbn [for_each]; conservative.
Qed.

(** X16. Whatever the run does and however it ends, it deletes nothing: every
    directory that was there is still a directory and every regular file
    is still a regular file (only its content may have been rewritten);
    and a well-formed file system is well-formed afterwards. *)
Theorem main_with_deletes_nothing config w :
  keeps_entries (files w)
    (files (snd (main_with http_get fromstring config w)))
  /\ (wf_files (files w) ->
      wf_files (files (snd (main_with http_get fromstring config w)))).
Proof.
  assert (H : conservative (main_with http_get fromstring config)).
  { unfold main_with. conservative. apply conservative_for_each. }
  exact (H w).
Qed.

(** X18. A download is confined to its destination: whatever the media URL
    looks like, the only places that can change are those the destination
    path leads through (the directory and its ancestors, made when
    missing) and the one the derived name leads to from the destination. *)
Theorem download_mp3_confined mp3_url dest_folder w q :
  (forall q', q' `suffix_of` FS.resolve dest_folder -> q <> FS.place q') ->
  (forall u, mp3_url = Some u ->
             q <> FS.place (derive_filename u :: FS.resolve dest_folder)) ->
  files (snd (download_mp3 http_get mp3_url dest_folder w)) !! q
  = files w !! q.
Proof.
  intros Hq Hfile. rewrite download_mp3_steps.
  assert (H1 : snd (os_makedirs_run dest_folder true (files w)) !! q
               = files w !! q).
  { destruct (os_makedirs_run_grows dest_folder (files w) q)
      as [Heq | (_ & _ & q' & Hq' & _ & ->)]; [exact Heq|].
    now destruct (Hq q' Hq'). }
  destruct (os_makedirs_run dest_folder true (files w)) as [[e|[]] fs1] eqn:Hmk;
    cbn [snd] in H1; [exact H1|].
  apply os_makedirs_inr in Hmk.
  unfold save_mp3, bind, on_files, lift, ret, raise, requests_get.
  destruct mp3_url as [u|]; [|exact H1].
  destruct (http_get u) as [r|]; [|exact H1]. cbn [files stdout].
  destruct (raise_for_status r) as [e|[]]; [exact H1|]. cbn [files stdout].
  destruct (FS.write_file _ _ fs1) as [e|fs2] eqn:Hw; [exact H1|].
  cbn [snd files]. rewrite <- H1.
  apply (write_file_frame _ _ _ _ _ Hw).
  rewrite (resolve_join _ _ (os_makedirs_nonempty _ _ _ _ Hmk)
             (derive_filename_no_slash u)).
  destruct (FS.is_name (derive_filename u)); cbn [app].
  - now apply Hfile.
  - now apply Hq.
Qed.

(** X17. A download that succeeded, run again in the state it left, returns
    the same path and changes nothing: the file is written over with the
    same content. *)
Theorem download_mp3_again u dest_folder w path w1 :
  wf_files (files w) ->
  download_mp3 http_get (Some u) dest_folder w = (inr path, w1) ->
  download_mp3 http_get (Some u) dest_folder w1 = (inr path, w1).
Proof.
  intros Hwf. rewrite download_mp3_steps.
  destruct (os_makedirs_run dest_folder true (files w)) as [[e|[]] fs1] eqn:Hmk;
    [discriminate|].
  apply os_makedirs_inr in Hmk.
  unfold save_mp3, bind, on_files, lift, ret, raise, requests_get.
  destruct (http_get u) as [r|] eqn:Hget; [|discriminate]. cbn [files stdout].
  destruct (raise_for_status r) as [e|[]] eqn:Hst; [discriminate|].
  cbn [files stdout].
  set (p := FS.resolve (FS.join dest_folder (derive_filename u))).
  destruct (FS.write_file p (streamed r) fs1) as [e|fs2] eqn:Hw;
    [discriminate|].
  intros [= <- <-].
  pose proof (write_file_keeps _ _ _ _ Hw) as Hk.
  assert (Hdir : FS.isdir fs2 (FS.resolve dest_folder) = true)
    by exact (isdir_keeps _ _ _ Hk (os_makedirs_isdir _ _ _ Hmk)).
  assert (Hmk2 : os_makedirs dest_folder true fs2 = inr fs2).
  { apply os_makedirs_inr. unfold os_makedirs_run.
    rewrite (proj2 (String.eqb_neq _ _) (os_makedirs_nonempty _ _ _ _ Hmk)).
    now apply makedirs_existing. }
  assert (Hw2 : FS.write_file p (streamed r) fs2 = inr fs2).
  { apply write_file_inv in Hw as (Hl & Hc & Hfs2).
    assert (Hr : FS.place p <> [])
      by (apply (entry_not_root fs1); destruct Hc as [-> | (z0 & ->)];
          discriminate).
    unfold FS.write_file. rewrite (locate_keeps _ _ _ _ Hk Hl).
    rewrite Hfs2 at 1. rewrite entry_insert_eq by assumption.
    rewrite Hfs2. now rewrite insert_insert_eq. }
  rewrite (download_mp3_made _ _ _ fs2) by exact Hmk2.
  unfold save_mp3, bind, on_files, lift, ret, raise, requests_get.
  rewrite Hget. cbn [files stdout]. rewrite Hst. cbn [files stdout].
  fold p. now rewrite Hw2.
Qed.

End Leaves.

(** ** Instances *)


Lemma download_mp3_request_failure_witness :
  exists e,
    download_mp3 (fun _ => None) (Some "http://example.com/ep1.mp3")
      "downloaded_podcast_audio" Sample.empty_world
    = (inl e, World (<[ ["downloaded_podcast_audio"] := FS.Dir ]> ∅)
                (stdout Sample.empty_world))
    /\ (forall r,
          (fun _ : string => @None Response) "http://example.com/ep1.mp3"
          = Some r -> e = HTTPError (status_code r)).
Proof.
  apply (download_mp3_request_failure (fun _ => None)
           "http://example.com/ep1.mp3" "downloaded_podcast_audio"
           (<[ ["downloaded_podcast_audio"] := FS.Dir ]> ∅)
           Sample.empty_world).
  - reflexivity.
  - now left.
Defined.

Lemma download_mp3_trailing_slash_witness :
  derive_filename ("http://example.com/episodes" +:+ "/") = ""
  /\ download_mp3 (Sample.http ["ab"])
       (Some ("http://example.com/episodes" +:+ "/"))
       "downloaded_podcast_audio" Sample.empty_world
     = (inl IsADirectoryError,
        World (<[ ["downloaded_podcast_audio"] := FS.Dir ]> ∅)
          (stdout Sample.empty_world)).
Proof.
  apply (download_mp3_trailing_slash (Sample.http ["ab"])
           "http://example.com/episodes" "downloaded_podcast_audio"
           {| status_code := 200; chunks := ["ab"] |});
    reflexivity.
Defined.

Lemma load_path_not_string_witness :
  _validate (<[ "podcast_url" := YList [] ]>
               {[ "downloaded_podcast_audio" := YInt 5 ]}) = inr tt
  /\ load (fun _ => Some (YMap (<[ "podcast_url" := YList [] ]>
                                  {[ "downloaded_podcast_audio" := YInt 5 ]})))
       "config.yaml"
       (World {[ ["config.yaml"] := FS.File "downloaded_podcast_audio: 5" ]} [])
     = (inl TypeError,
        World {[ ["config.yaml"] := FS.File "downloaded_podcast_audio: 5" ]} []).
Proof.
  apply (load_path_not_string _ "config.yaml" _
           "downloaded_podcast_audio: 5" _ (YInt 5) []);
    try reflexivity.
  intros p. discriminate.
Defined.

Lemma for_each_non_string_witness :
  (forall data,
      is_Some (data !! "downloaded_podcast_audio") ->
      data !! "podcast_url" = Some (YList ([] ++ YInt 5 :: [])) ->
      _validate data = inr tt)
  /\ for_each (Sample.http ["<rss/>"]) (Sample.parser (Elem "rss" ∅ []))
       ([] ++ YInt 5 :: []) None Sample.empty_world
     = match for_each (Sample.http ["<rss/>"]) (Sample.parser (Elem "rss" ∅ []))
               [] None Sample.empty_world with
       | (inr _, w') => (inl TypeError, w')
       | (inl e, w') => (inl e, w')
       end.
Proof. apply for_each_non_string. intros u. discriminate. Defined.

Lemma for_each_no_enclosure_witness :
  for_each (Sample.http ["<rss/>"]) (Sample.parser (Elem "rss" ∅ []))
    [YStr "https://ivoox.com/x_sq_f1_1.html";
     YStr "https://ivoox.com/y_sq_f2_1.html"] None Sample.empty_world
  = (inl AttributeError,
     World (<[ ["downloaded_podcast_audio"] := FS.Dir ]> ∅)
       (stdout Sample.empty_world
        ++ [[OStr (build_feed_url "f1")]; [OStr "First MP3 URL:"; ONone]])).
Proof.
  apply (for_each_no_enclosure _ _ "https://ivoox.com/x_sq_f1_1.html" "f1" _ _
           {| status_code := 200; chunks := ["<rss/>"] |} (Elem "rss" ∅ []));
    reflexivity.
Defined.


Lemma download_mp3_again_witness :
  download_mp3 (Sample.http ["ab"; ""; "cd"])
    (Some "http://example.com/ep1.mp3?t=1") "downloaded_podcast_audio"
    (World (<[ ["ep1.mp3"; "downloaded_podcast_audio"] := FS.File "abcd" ]>
              (<[ ["downloaded_podcast_audio"] := FS.Dir ]> ∅)) [])
  = (inr "downloaded_podcast_audio/ep1.mp3",
     World (<[ ["ep1.mp3"; "downloaded_podcast_audio"] := FS.File "abcd" ]>
              (<[ ["downloaded_podcast_audio"] := FS.Dir ]> ∅)) []).
Proof.
  apply (download_mp3_again _ _ _ Sample.empty_world).
  - exact wf_files_empty.
  - reflexivity.
Defined.

Lemma download_mp3_confined_witness :
  files (snd (download_mp3 (Sample.http ["ab"])
                (Some "http://example.com/../../etc/passwd.mp3") "x/../y"
                (World {[ ["passwd.mp3"; "etc"] := FS.File "root" ]} [])))
    !! ["passwd.mp3"; "etc"]
  = files (World {[ ["passwd.mp3"; "etc"] := FS.File "root" ]} [])
      !! ["passwd.mp3"; "etc"].
Proof.
  apply download_mp3_confined.
  - change (FS.resolve "x/../y") with ["y"; ".."; "x"]. intros q' Hq'.
    repeat (apply suffix_cons_cases in Hq' as [-> | Hq']; [discriminate|]).
    apply suffix_nil_inv in Hq' as ->. discriminate.
  - intros u [= <-]. vm_compute. discriminate.
Defined.


Lemma load_returns_witness :
  load (fun _ => Some (YMap (<[ "podcast_url" := YList [] ]>
                               {[ "downloaded_podcast_audio" := YStr "./out/" ]})))
    "./config.yaml"
    (World {[ ["config.yaml"] := FS.File "..." ]} [])
  = (inr {| downloaded_podcast_audio := "out"; podcast_url := [] |},
     World {[ ["config.yaml"] := FS.File "..." ]} []).
Proof.
  apply (proj2 (load_returns _ _ _ _ _)). split; [reflexivity|].
  exists "...", (<[ "podcast_url" := YList [] ]>
                   {[ "downloaded_podcast_audio" := YStr "./out/" ]}), "./out/".
  repeat split.
Defined.

Lemma for_each_sequence_witness :
  for_each (Sample.http ["<rss/>"]) (Sample.parser (Elem "rss" ∅ []))
    ([YInt 5] ++ [YStr "https://ivoox.com/x_sq_f1_1.html"]) None
    Sample.empty_world
  = (inl TypeError, Sample.empty_world).
Proof.
  apply (proj2 (for_each_sequence (Sample.http ["<rss/>"])
                  (Sample.parser (Elem "rss" ∅ [])) [YInt 5]
                  [YStr "https://ivoox.com/x_sq_f1_1.html"] None
                  Sample.empty_world)).
  reflexivity.
Defined.

(** ** The scenario of the specification, run *)

Example extract_id_scenario :
  extract_id "https://ivoox.com/podcast/sq_f123456_1.html" = Some "f123456".
Proof. reflexivity. Qed.

Example extract_id_takes_leftmost :
  extract_id "sq_f_sq_f12x_sq_f34_sq_f5_" = Some "f34".
Proof. reflexivity. Qed.

Example extract_id_needs_underscore :
  extract_id "https://ivoox.com/sq_f12.html" = None.
Proof. reflexivity. Qed.

Example build_feed_url_scenario :
  build_feed_url "f123456"
  = "https://feeds.ivoox.com/feed_fg_f123456_filtro_1.xml".
Proof. reflexivity. Qed.

Example derive_filename_upper_case :
  derive_filename "http://example.com/x.MP3?y.mp3z" = "x.MP3".
Proof. reflexivity. Qed.

Example makedirs_nested :
  forall q,
    q ∈ [["c"; "b"; "a"]; ["b"; "a"]; ["a"]] ->
    (fun r => match r with
              | inr fs => fs !! q
              | inl _ => None
              end) (os_makedirs "a/b/c" true ∅) = Some FS.Dir.
Proof.
  intros q Hq. repeat (apply elem_of_cons in Hq as [-> | Hq]);
    [reflexivity.. | now apply elem_of_nil in Hq].
Qed.

Example makedirs_file_in_the_way :
  os_makedirs "a/b" true (<[ ["a"] := FS.File "x" ]> ∅)
  = inl NotADirectoryError.
Proof. reflexivity. Qed.

(** One URL with an identifier, then one without: the second iteration
    fetches the feed of the first again and saves the same file again. *)
Example run_scenario :
  let r :=
    main_with (Sample.http ["ab"; ""; "cd"])
      (Sample.parser (Sample.feed {[ "url" := "http://example.com/ep1.mp3?t=1" ]}))
      {| downloaded_podcast_audio := "./out";
         podcast_url := [YStr "https://ivoox.com/x_sq_f1_1.html";
                         YStr "https://ivoox.com/nothing.html"] |}
      Sample.empty_world in
  fst r = inr tt
  /\ files (snd r) !! ["ep1.mp3"; "downloaded_podcast_audio"]
     = Some (FS.File "abcd")
  /\ files (snd r) !! ["out"] = None
  /\ stdout (snd r)
     = [[OPath "./out"];
        [OList [YStr "https://ivoox.com/x_sq_f1_1.html";
                YStr "https://ivoox.com/nothing.html"]];
        [OStr "https://feeds.ivoox.com/feed_fg_f1_filtro_1.xml"];
        [OStr "First MP3 URL:"; OStr "http://example.com/ep1.mp3?t=1"];
        [OStr "Saved:"; OStr "downloaded_podcast_audio/ep1.mp3"];
        [OStr "ID not found"];
        [OStr "First MP3 URL:"; OStr "http://example.com/ep1.mp3?t=1"];
        [OStr "Saved:"; OStr "downloaded_podcast_audio/ep1.mp3"]].
Proof. vm_compute. repeat split. Qed.

Example extract_id_other_digits :
  Unicode.extract_id
    (fun c => Py.is_digit c || (1632 <=? c) && (c <=? 1641))%N
    (Py.code_points "sq_f" ++ [1633; 1634]%N ++ Py.code_points "_")
  = Some (Py.code_points "f" ++ [1633; 1634]%N).
Proof. reflexivity. Qed.

Example makedirs_through_dotdot :
  os_makedirs "x/../y" true ∅
  = inr (<[ ["y"] := FS.Dir ]> (<[ ["x"] := FS.Dir ]> ∅)).
Proof. reflexivity. Qed.

Example makedirs_empty_name : os_makedirs "" true ∅ = inl FS.ENOENT.
Proof. reflexivity. Qed.

Example path_spelling :
  FS.Path "./out" = "out" /\ FS.Path "" = "." /\ FS.Path "//a//b/" = "//a/b"
  /\ FS.Path "///a/./b" = "/a/b" /\ FS.Path "a/../b" = "a/../b".
Proof. repeat split. Qed.

Example download_mp3_dotdot_name :
  download_mp3 (Sample.http ["ab"]) (Some "http://example.com/..")
    "downloaded_podcast_audio" Sample.empty_world
  = (inl IsADirectoryError,
     World (<[ ["downloaded_podcast_audio"] := FS.Dir ]> ∅) []).
Proof. reflexivity. Qed.

(** An empty configuration file is the document [None], and a document
    that is a list or a string passes the tests of membership: loading
    ends with [TypeError] then. *)
Example load_no_mapping :
  let w := World {[ ["config.yaml"] := FS.File "" ]} [] in
  load (fun _ => Some YNull) "config.yaml" w = (inl TypeError, w)
  /\ load (fun _ => Some (YList [YStr "podcast_url";
                                  YStr "downloaded_podcast_audio"]))
        "config.yaml" w
     = (inl TypeError, w)
  /\ load (fun _ => Some (YStr "downloaded_podcast_audio")) "config.yaml" w
     = (inl (ValueError "Missing required field: podcast_url"), w).
Proof. repeat split. Qed.
